(** * Ticker pipeline and Steam snapshot script: a shallow embedding

    The development follows the two programs of the repository:
    - [ticker.js]: the relay fallback chain ([fetchText]), the payload
      decoder ([decodeDataPayload]), the FRED CSV parser ([parseFredCsv]),
      the aggregator ([latestPair], the percent change) and the render pass
      ([fmtTicker], [updateSpans], [loadTicker]);
    - [steam-fetch.js]: the one-shot build script that aggregates the owned
      games of a Steam account and writes [steam-data.json].

    JavaScript strings are sequences of UTF-16 code units, numbers of the
    ticker are IEEE-754 binary64 values ([spec_float] at precision 53),
    thrown exceptions and rejected promises are the [Throw] completion. *)

From Stdlib Require Import String Ascii.
From Stdlib Require Import List ZArith NArith Bool Lia.
From Stdlib Require Import SpecFloat QArith Qround.
From Stdlib Require Import Permutation Sorted.
Import ListNotations.

Set Implicit Arguments.

(** ** The host language *)

Module JS.

(** *** Strings *)

Definition code_unit := N.
Definition jsstring := list code_unit.

(** An ASCII literal of the source as a sequence of code units. *)
Definition lit (s : string) : jsstring :=
  map N_of_ascii (list_ascii_of_string s).

Fixpoint str_eqb (a b : jsstring) : bool :=
  match a, b with
  | [], [] => true
  | x :: a', y :: b' => N.eqb x y && str_eqb a' b'
  | _, _ => false
  end.

(** [Boolean(s)], the truthiness of a string. *)
Definition truthy_str (s : jsstring) : bool :=
  match s with [] => false | _ :: _ => true end.

Fixpoint starts_with (needle s : jsstring) : bool :=
  match needle, s with
  | [], _ => true
  | x :: needle', y :: s' => N.eqb x y && starts_with needle' s'
  | _ :: _, [] => false
  end.

(** [String.prototype.indexOf]: the least position at which [needle]
    occurs, counted from [k]; [-1] when there is none. *)
Fixpoint indexOf_from (needle s : jsstring) (k : Z) : Z :=
  match s with
  | [] => if starts_with needle [] then k else (-1)%Z
  | _ :: s' => if starts_with needle s then k else indexOf_from needle s' (k + 1)
  end.

Definition indexOf (s needle : jsstring) : Z := indexOf_from needle s 0.

(** [slice(start, end)] of strings and arrays: a negative index counts from
    the end, every index is clamped to the length. *)
Definition clamp_index (len i : Z) : Z :=
  if (i <? 0)%Z then Z.max (len + i) 0 else Z.min i len.

Definition slice {A : Type} (l : list A) (start : Z) (stop : option Z) : list A :=
  let len := Z.of_nat (length l) in
  let from := clamp_index len start in
  let to := match stop with None => len | Some e => clamp_index len e end in
  firstn (Z.to_nat (Z.max (to - from) 0)) (skipn (Z.to_nat from) l).

(** [split] on a one-unit separator: always at least one piece. *)
Fixpoint split_on (sep : code_unit) (s : jsstring) : list jsstring :=
  match s with
  | [] => [[]]
  | c :: rest =>
      let r := split_on sep rest in
      if N.eqb c sep then [] :: r
      else match r with
           | h :: t => (c :: h) :: t
           | [] => [[c]]
           end
  end.

Definition LF : code_unit := 10%N.
Definition CR : code_unit := 13%N.

(** [split(/\r?\n/)]: a line feed ends a piece, and a carriage return
    directly before it belongs to the terminator. *)
Fixpoint split_lines (s : jsstring) : list jsstring :=
  match s with
  | [] => [[]]
  | c :: rest =>
      let r := split_lines rest in
      if N.eqb c LF then [] :: r
      else if N.eqb c CR && starts_with [LF] rest then r
      else match r with
           | h :: t => (c :: h) :: t
           | [] => [[c]]
           end
  end.

(** *** Completions *)

(** Messages of the [Error] objects the programs construct. *)
Inductive message :=
| CodetabsHTTP (status : N)
| AllOriginsGetHTTP (status : N)
| AllOriginsGetEmpty
| AllOriginsRawHTTP (status : N)
| NoData
| SteamFailed (method : jsstring) (status : N)
| PlayerSummariesFailed (status : N).

Inductive exn :=
| TypeError
| SyntaxError
| URIError
| InvalidCharacterError
| Error (m : message).

(** The result of evaluating an expression or settling a promise. *)
Inductive completion (A : Type) :=
| Ok (a : A)
| Throw (e : exn).
Arguments Ok {A} a.
Arguments Throw {A} e.

Definition cbind {A B} (c : completion A) (k : A -> completion B) : completion B :=
  match c with
  | Ok a => k a
  | Throw e => Throw e
  end.

Definition cmap {A B} (f : A -> B) (c : completion A) : completion B :=
  cbind c (fun a => Ok (f a)).

(** *** [atob]: the forgiving base64 decoder of the HTML standard *)

Definition ascii_whitespace (c : code_unit) : bool :=
  N.eqb c 9 || N.eqb c 10 || N.eqb c 12 || N.eqb c 13 || N.eqb c 32.

Definition between (lo hi c : N) : bool := N.leb lo c && N.leb c hi.

Definition b64_value (c : code_unit) : option N :=
  if between 65 90 c then Some (c - 65)%N
  else if between 97 122 c then Some (c - 71)%N
  else if between 48 57 c then Some (c + 4)%N
  else if N.eqb c 43 then Some 62%N
  else if N.eqb c 47 then Some 63%N
  else None.

Fixpoint b64_values (s : jsstring) : option (list N) :=
  match s with
  | [] => Some []
  | c :: rest =>
      match b64_value c, b64_values rest with
      | Some v, Some vs => Some (v :: vs)
      | _, _ => None
      end
  end.

(** Groups of four sextets give three octets; a final group of two or
    three gives one or two, the spare bits being dropped. *)
Fixpoint b64_octets (vs : list N) : list N :=
  match vs with
  | a :: b :: c :: d :: rest =>
      let n := (a * 262144 + b * 4096 + c * 64 + d)%N in
      (n / 65536)%N :: ((n / 256) mod 256)%N :: (n mod 256)%N :: b64_octets rest
  | [a; b; c] =>
      let n := (a * 4096 + b * 64 + c)%N in
      [(n / 1024)%N; ((n / 4) mod 256)%N]
  | [a; b] => [((a * 64 + b) / 16)%N]
  | _ => []
  end.

Definition EQUALS : code_unit := 61%N.

(** Drops one or two trailing [=] when the length is a multiple of four. *)
Definition strip_padding (s : jsstring) : jsstring :=
  if Nat.eqb (length s mod 4) 0 then
    match rev s with
    | a :: b :: r =>
        if N.eqb a EQUALS then
          if N.eqb b EQUALS then rev r else rev (b :: r)
        else s
    | _ => s
    end
  else s.

Definition atob (s : jsstring) : completion jsstring :=
  let data := strip_padding (filter (fun c => negb (ascii_whitespace c)) s) in
  if Nat.eqb (length data mod 4) 1 then Throw InvalidCharacterError
  else match b64_values data with
       | Some vs => Ok (b64_octets vs)
       | None => Throw InvalidCharacterError
       end.

(** *** [decodeURIComponent] and [encodeURIComponent] *)

Definition PERCENT : code_unit := 37%N.

Definition hex_value (c : code_unit) : option N :=
  if between 48 57 c then Some (c - 48)%N
  else if between 65 70 c then Some (c - 55)%N
  else if between 97 102 c then Some (c - 87)%N
  else None.

(** A code unit of the input, or the octet of a [%XX] escape. *)
Inductive uri_token :=
| Unit (c : code_unit)
| Octet (b : N).

Fixpoint uri_tokens (s : jsstring) : completion (list uri_token) :=
  match s with
  | [] => Ok []
  | c :: rest =>
      if N.eqb c PERCENT then
        match rest with
        | h1 :: h2 :: rest' =>
            match hex_value h1, hex_value h2 with
            | Some a, Some b =>
                cmap (cons (Octet (16 * a + b)%N)) (uri_tokens rest')
            | _, _ => Throw URIError
            end
        | _ => Throw URIError
        end
      else cmap (cons (Unit c)) (uri_tokens rest)
  end.

Definition continuation (b : N) : bool := between 128 191 b.

(** UTF-16 encoding of a code point. *)
Definition utf16 (cp : N) : jsstring :=
  if N.ltb cp 65536 then [cp]
  else let v := (cp - 65536)%N in
       [(55296 + v / 1024)%N; (56320 + v mod 1024)%N].

(** Well-formed UTF-8 only: no overlong form, no surrogate, nothing above
    U+10FFFF; an escape inside a multi-octet sequence must be an escape. *)
Fixpoint utf8_decode (ts : list uri_token) : completion jsstring :=
  match ts with
  | [] => Ok []
  | Unit c :: rest => cmap (cons c) (utf8_decode rest)
  | Octet b :: rest =>
      if N.ltb b 128 then cmap (cons b) (utf8_decode rest)
      else if between 194 223 b then
        match rest with
        | Octet b1 :: rest' =>
            if continuation b1
            then cmap (app (utf16 ((b - 192) * 64 + (b1 - 128))%N)) (utf8_decode rest')
            else Throw URIError
        | _ => Throw URIError
        end
      else if between 224 239 b then
        match rest with
        | Octet b1 :: Octet b2 :: rest' =>
            let lo := if N.eqb b 224 then 160%N else 128%N in
            let hi := if N.eqb b 237 then 159%N else 191%N in
            if between lo hi b1 && continuation b2
            then cmap (app (utf16 ((b - 224) * 4096 + (b1 - 128) * 64 + (b2 - 128))%N))
                      (utf8_decode rest')
            else Throw URIError
        | _ => Throw URIError
        end
      else if between 240 244 b then
        match rest with
        | Octet b1 :: Octet b2 :: Octet b3 :: rest' =>
            let lo := if N.eqb b 240 then 144%N else 128%N in
            let hi := if N.eqb b 244 then 143%N else 191%N in
            if between lo hi b1 && continuation b2 && continuation b3
            then cmap (app (utf16 ((b - 240) * 262144 + (b1 - 128) * 4096
                                   + (b2 - 128) * 64 + (b3 - 128))%N))
                      (utf8_decode rest')
            else Throw URIError
        | _ => Throw URIError
        end
      else Throw URIError
  end.

Definition decodeURIComponent (s : jsstring) : completion jsstring :=
  cbind (uri_tokens s) utf8_decode.

Definition hex_digit (n : N) : code_unit :=
  if N.ltb n 10 then (48 + n)%N else (55 + n)%N.

Definition percent_escape (b : N) : jsstring :=
  [PERCENT; hex_digit (b / 16); hex_digit (b mod 16)].

Definition utf8_encode (cp : N) : list N :=
  if N.ltb cp 128 then [cp]
  else if N.ltb cp 2048 then [(192 + cp / 64)%N; (128 + cp mod 64)%N]
  else if N.ltb cp 65536 then
    [(224 + cp / 4096)%N; (128 + (cp / 64) mod 64)%N; (128 + cp mod 64)%N]
  else
    [(240 + cp / 262144)%N; (128 + (cp / 4096) mod 64)%N;
     (128 + (cp / 64) mod 64)%N; (128 + cp mod 64)%N].

(** Letters, digits and [- _ . ! ~ * ' ( )] are left as they are. *)
Definition uri_unreserved (c : code_unit) : bool :=
  between 65 90 c || between 97 122 c || between 48 57 c
  || N.eqb c 45 || N.eqb c 95 || N.eqb c 46 || N.eqb c 33 || N.eqb c 126
  || N.eqb c 42 || N.eqb c 39 || N.eqb c 40 || N.eqb c 41.

Definition high_surrogate (c : code_unit) : bool := between 55296 56319 c.
Definition low_surrogate (c : code_unit) : bool := between 56320 57343 c.

Fixpoint encodeURIComponent (s : jsstring) : completion jsstring :=
  match s with
  | [] => Ok []
  | c :: rest =>
      if uri_unreserved c then cmap (cons c) (encodeURIComponent rest)
      else if low_surrogate c then Throw URIError
      else if high_surrogate c then
        match rest with
        | c2 :: rest' =>
            if low_surrogate c2 then
              let cp := ((c - 55296) * 1024 + (c2 - 56320) + 65536)%N in
              cmap (app (flat_map percent_escape (utf8_encode cp)))
                   (encodeURIComponent rest')
            else Throw URIError
        | [] => Throw URIError
        end
      else cmap (app (flat_map percent_escape (utf8_encode c)))
                (encodeURIComponent rest)
  end.

(** *** Numbers *)

(** IEEE-754 binary64, with the operations of [SpecFloat]. *)
Definition float := spec_float.
Definition prec : Z := 53.
Definition emax : Z := 1024.

Definition fsub : float -> float -> float := SFsub prec emax.
Definition fmul : float -> float -> float := SFmul prec emax.
Definition fdiv : float -> float -> float := SFdiv prec emax.
Definition fabs : float -> float := SFabs.

(** [a >= b]; false as soon as one side is NaN. *)
Definition fge (a b : float) : bool := SFleb b a.

Definition of_Z (z : Z) : float := binary_normalize prec emax z 0 false.

Definition NaN : float := S754_nan.
Definition pos_zero : float := S754_zero false.

(** [Number.isFinite]. *)
Definition isFinite (x : float) : bool :=
  match x with
  | S754_zero _ | S754_finite _ _ _ => true
  | S754_infinity _ | S754_nan => false
  end.

(** Truthiness of a number: neither zero nor NaN. *)
Definition truthy_num (x : float) : bool :=
  match x with
  | S754_zero _ | S754_nan => false
  | _ => true
  end.

(** *** [Number(string)] *)

(** White space and line terminators, trimmed before the literal is read. *)
Definition str_whitespace (c : code_unit) : bool :=
  between 9 13 c || N.eqb c 32 || N.eqb c 160 || N.eqb c 5760
  || between 8192 8202 c || N.eqb c 8232 || N.eqb c 8233 || N.eqb c 8239
  || N.eqb c 8287 || N.eqb c 12288 || N.eqb c 65279.

Fixpoint trim_start (s : jsstring) : jsstring :=
  match s with
  | c :: rest => if str_whitespace c then trim_start rest else s
  | [] => []
  end.

Definition trim (s : jsstring) : jsstring :=
  rev (trim_start (rev (trim_start s))).

Definition is_digit (c : code_unit) : bool := between 48 57 c.

Fixpoint span_digits (s : jsstring) : jsstring * jsstring :=
  match s with
  | c :: rest =>
      if is_digit c then
        let (ds, tail) := span_digits rest in (c :: ds, tail)
      else ([], s)
  | [] => ([], [])
  end.

Definition digits_value (ds : jsstring) : N :=
  fold_left (fun acc c => (acc * 10 + (c - 48))%N) ds 0%N.

(** The value [m * 10^e], rounded to the nearest binary64 (ties to even). *)
Definition decimal_to_float (neg : bool) (m : N) (e : Z) : float :=
  match m with
  | N0 => S754_zero neg
  | Npos p =>
      match e with
      | Z0 => binary_round prec emax neg p 0
      | Zpos k => binary_round prec emax neg (p * Pos.pow 10 k) 0
      | Zneg k => SFdiv prec emax (S754_finite neg p 0)
                        (S754_finite false (Pos.pow 10 k) 0)
      end
  end.

(** What follows the mantissa: nothing, or [e]/[E], a sign, digits. *)
Definition parse_exponent (s : jsstring) : option Z :=
  match s with
  | [] => Some 0%Z
  | c :: r =>
      if N.eqb c 101 || N.eqb c 69 then
        let '(neg, r') :=
          match r with
          | sg :: r' =>
              if N.eqb sg 43 then (false, r')
              else if N.eqb sg 45 then (true, r')
              else (false, r)
          | [] => (false, r)
          end in
        let '(ds, tail) := span_digits r' in
        match ds, tail with
        | _ :: _, [] =>
            let v := Z.of_N (digits_value ds) in
            Some (if neg then (- v)%Z else v)
        | _, _ => None
        end
      else None
  end.

(** Mantissa and decimal exponent of an unsigned decimal literal. *)
Definition parse_unsigned_decimal (s : jsstring) : option (N * Z) :=
  let '(d1, r1) := span_digits s in
  match r1 with
  | c :: r2 =>
      if N.eqb c 46 then
        let '(d2, r3) := span_digits r2 in
        if truthy_str d1 || truthy_str d2 then
          option_map
            (fun e => (digits_value (d1 ++ d2), (e - Z.of_nat (length d2))%Z))
            (parse_exponent r3)
        else None
      else if truthy_str d1 then
        option_map (fun e => (digits_value d1, e)) (parse_exponent r1)
      else None
  | [] => if truthy_str d1 then Some (digits_value d1, 0%Z) else None
  end.

Definition radix_digit (radix : N) (c : code_unit) : option N :=
  match hex_value c with
  | Some v => if N.ltb v radix then Some v else None
  | None => None
  end.

Fixpoint radix_value (radix : N) (acc : N) (s : jsstring) : option N :=
  match s with
  | [] => Some acc
  | c :: rest =>
      match radix_digit radix c with
      | Some v => radix_value radix (acc * radix + v)%N rest
      | None => None
      end
  end.

(** [0x], [0o] and [0b] literals: unsigned, at least one digit. *)
Definition parse_radix_literal (s : jsstring) : option N :=
  match s with
  | z :: p :: (_ :: _) as ds =>
      if N.eqb z 48 then
        if N.eqb p 120 || N.eqb p 88 then radix_value 16 0 ds
        else if N.eqb p 111 || N.eqb p 79 then radix_value 8 0 ds
        else if N.eqb p 98 || N.eqb p 66 then radix_value 2 0 ds
        else None
      else None
  | _ => None
  end.

Definition parse_signed_decimal (s : jsstring) : float :=
  let '(neg, body) :=
    match s with
    | c :: r =>
        if N.eqb c 43 then (false, r)
        else if N.eqb c 45 then (true, r)
        else (false, s)
    | [] => (false, s)
    end in
  if str_eqb body (lit "Infinity") then S754_infinity neg
  else match parse_unsigned_decimal body with
       | Some (m, e) => decimal_to_float neg m e
       | None => NaN
       end.

(** [Number(s)]: the empty or blank string is [+0], anything that is not a
    numeric literal is NaN. *)
Definition Number (s : jsstring) : float :=
  let t := trim s in
  match t with
  | [] => pos_zero
  | _ :: _ =>
      match parse_radix_literal t with
      | Some n => decimal_to_float false n 0
      | None => parse_signed_decimal t
      end
  end.

End JS.

Import JS.

(** ** ticker.js *)

Module Ticker.

(** *** The page's environment *)

(** What the script reads of a [fetch] response: the status, from which
    [ok] derives, and the body, whose reading may itself reject. *)
Record Response := {
  status : N;
  text : completion jsstring
}.

Definition ok (r : Response) : bool := between 200 299 (status r).

(** A request as [fetch] receives it; [no_store] is the
    [{ cache: 'no-store' }] option. *)
Record Request := {
  url : jsstring;
  no_store : bool
}.

(** The network as seen by one run: what each request settles to. *)
Record World := {
  fetch : Request -> completion Response
}.

(** The documents the JSON endpoints answer with, read through the fields
    the script accesses.  A document on which the script would throw while
    reading it (a property of [undefined], a method of an absent price) is
    a failure of the parser; an absent change or close reads as NaN, which
    is falsy and compares like [undefined]. *)
Record AllOriginsDoc := {
  contents : option jsstring
}.

Record CoinGeckoDoc := {
  usd : float;
  usd_24h_change : float
}.

Record ChartDoc := {
  regularMarketPrice : float;
  chartPreviousClose : float;
  previousClose : float
}.

(** The functions of the browser whose results depend on the locale or on
    the full JSON grammar; they are total on the arguments the script
    passes. *)
Class Host := {
  toLocaleString : float -> option N -> option N -> jsstring;
  toFixed : float -> N -> jsstring;
  JSON_allorigins : jsstring -> completion AllOriginsDoc;
  JSON_coingecko : jsstring -> completion CoinGeckoDoc;
  JSON_chart : jsstring -> completion ChartDoc
}.

(** *** Asynchronous computations

    An [async] function is run against the world; it settles to a
    completion and leaves the requests it issued, in the order it issued
    them. *)
Definition Async (A : Type) : Type := World -> completion A * list Request.

Definition ret {A} (a : A) : Async A := fun _ => (Ok a, []).

Definition throw {A} (e : exn) : Async A := fun _ => (Throw e, []).

Definition lift {A} (c : completion A) : Async A := fun _ => (c, []).

Definition bind {A B} (m : Async A) (k : A -> Async B) : Async B :=
  fun w =>
    match m w with
    | (Ok a, t) => let (r, t') := k a w in (r, t ++ t')
    | (Throw e, t) => (Throw e, t)
    end.

(** [try { return await m } catch (_) { handler }]. *)
Definition try_catch {A} (m : Async A) (handler : exn -> Async A) : Async A :=
  fun w =>
    match m w with
    | (Ok a, t) => (Ok a, t)
    | (Throw e, t) => let (r, t') := handler e w in (r, t ++ t')
    end.

Definition await_fetch (rq : Request) : Async Response :=
  fun w => (fetch w rq, [rq]).

Declare Scope async_scope.
Delimit Scope async_scope with async.
Notation "x <- m ;; k" := (bind m (fun x => k))
  (at level 61, m at next level, right associativity) : async_scope.
Local Open Scope async_scope.

(** *** CORS proxy fallback chain *)

Definition DATA_PREFIX : jsstring := Eval cbv in lit "data:".
Definition COMMA : jsstring := Eval cbv in lit ",".
Definition BASE64_MARK : jsstring := Eval cbv in lit ";base64".

Definition decodeDataPayload (contents : jsstring) : completion jsstring :=
  if negb (truthy_str contents) then Ok []
  else if negb (indexOf contents DATA_PREFIX =? 0)%Z then Ok contents
  else
    let comma := indexOf contents COMMA in
    if (comma =? -1)%Z then Ok contents
    else
      let metadata := slice contents 0 (Some comma) in
      let payload := slice contents (comma + 1) None in
      if negb (indexOf metadata BASE64_MARK =? -1)%Z then atob payload
      else decodeURIComponent payload.

Definition CODETABS : jsstring :=
  Eval cbv in lit "https://api.codetabs.com/v1/proxy/?quest=".
Definition ALLORIGINS_GET : jsstring :=
  Eval cbv in lit "https://api.allorigins.win/get?url=".
Definition ALLORIGINS_RAW : jsstring :=
  Eval cbv in lit "https://api.allorigins.win/raw?url=".

Definition fetchViaCodetabs (u : jsstring) : Async jsstring :=
  q <- lift (encodeURIComponent u) ;;
  r <- await_fetch {| url := CODETABS ++ q; no_store := true |} ;;
  if negb (ok r) then throw (Error (CodetabsHTTP (status r)))
  else lift (text r).

(** [p.contents || '']. *)
Definition contents_or_empty (p : AllOriginsDoc) : jsstring :=
  match contents p with
  | Some c => if truthy_str c then c else []
  | None => []
  end.

Definition fetchViaAllOriginsGet `{Host} (u : jsstring) : Async jsstring :=
  q <- lift (encodeURIComponent u) ;;
  r <- await_fetch {| url := ALLORIGINS_GET ++ q; no_store := true |} ;;
  if negb (ok r) then throw (Error (AllOriginsGetHTTP (status r)))
  else
    p <- lift (cbind (text r) JSON_allorigins) ;;
    d <- lift (decodeDataPayload (contents_or_empty p)) ;;
    if negb (truthy_str d) then throw (Error AllOriginsGetEmpty)
    else ret d.

Definition fetchViaAllOriginsRaw (u : jsstring) : Async jsstring :=
  q <- lift (encodeURIComponent u) ;;
  r <- await_fetch {| url := ALLORIGINS_RAW ++ q; no_store := true |} ;;
  if negb (ok r) then throw (Error (AllOriginsRawHTTP (status r)))
  else lift (text r).

Definition fetchText `{Host} (u : jsstring) : Async jsstring :=
  try_catch (fetchViaCodetabs u) (fun _ =>
    try_catch (fetchViaAllOriginsGet u) (fun _ =>
      fetchViaAllOriginsRaw u)).

(** *** FRED helpers *)

Record Point := {
  date : jsstring;
  value : float
}.

(** [.filter(Boolean)] on an array of objects and nulls. *)
Fixpoint filter_Boolean {A} (l : list (option A)) : list A :=
  match l with
  | [] => []
  | Some a :: rest => a :: filter_Boolean rest
  | None :: rest => filter_Boolean rest
  end.

Definition COMMA_UNIT : code_unit := 44%N.

(** The callback mapped over the data lines. *)
Definition parseLine (line : jsstring) : option Point :=
  let parts := split_on COMMA_UNIT line in
  if (length parts <? 2)%nat then None
  else
    let v := Number (nth 1 parts []) in
    if isFinite v then Some {| date := nth 0 parts []; value := v |}
    else None.

Definition parseFredCsv (csv : jsstring) : list Point :=
  let lines := filter truthy_str (split_lines csv) in
  if (length lines <? 2)%nat then []
  else filter_Boolean (map parseLine (slice lines 1 None)).

Definition FRED_CSV : jsstring :=
  Eval cbv in lit "https://fred.stlouisfed.org/graph/fredgraph.csv?id=".

Definition fetchFred `{Host} (id : jsstring) : Async (list Point) :=
  q <- lift (encodeURIComponent id) ;;
  csv <- fetchText (FRED_CSV ++ q) ;;
  let pts := parseFredCsv csv in
  if (length pts =? 0)%nat then throw (Error NoData)
  else ret pts.

Record LatestPair := {
  latest : option Point;
  previous : option Point
}.

Definition latestPair (pts : list Point) : LatestPair :=
  if (length pts =? 0)%nat then {| latest := None; previous := None |}
  else
    {| latest := nth_error pts (length pts - 1);
       previous := if (1 <? length pts)%nat
                   then nth_error pts (length pts - 2)
                   else None |}.

(** *** Ticker config *)

Record TickerSpec := {
  attr : jsstring;
  fred : jsstring;
  label : jsstring;
  decimals : N;
  suffix : option jsstring
}.

Definition fredTickers : list TickerSpec := Eval cbv in
  [ {| attr := lit "SP500"; fred := lit "SP500"; label := lit "S&P 500";
       decimals := 0; suffix := None |};
    {| attr := lit "NASDAQ"; fred := lit "NASDAQCOM"; label := lit "NASDAQ";
       decimals := 0; suffix := None |};
    {| attr := lit "10Y"; fred := lit "DGS10"; label := lit "10Y YIELD";
       decimals := 3; suffix := Some (lit "%") |};
    {| attr := lit "GOLD"; fred := lit "GOLDAMGBD228NLBM"; label := lit "GOLD";
       decimals := 2; suffix := None |};
    {| attr := lit "VIX"; fred := lit "VIXCLS"; label := lit "VIX";
       decimals := 2; suffix := None |};
    {| attr := lit "EURUSD"; fred := lit "DEXUSEU"; label := lit "EUR/USD";
       decimals := 4; suffix := None |};
    {| attr := lit "CRUDE"; fred := lit "DCOILWTICO"; label := lit "WTI CRUDE";
       decimals := 2; suffix := None |};
    {| attr := lit "FEDFUNDS"; fred := lit "FEDFUNDS"; label := lit "FED FUNDS";
       decimals := 2; suffix := Some (lit "%") |} ].

(** *** DOM helpers *)

(** An element carrying a [data-ticker] attribute. *)
Record Span := {
  data_ticker : jsstring;
  textContent : jsstring;
  classList : list jsstring
}.

Definition document := list Span.

Inductive Direction := up | down.

Definition TICK_UP : jsstring := Eval cbv in lit "tick--up".
Definition TICK_DOWN : jsstring := Eval cbv in lit "tick--down".

(** [classList.remove]: every occurrence of the tokens goes. *)
Definition classList_remove (tokens : list jsstring) (cl : list jsstring) : list jsstring :=
  filter (fun c => negb (existsb (str_eqb c) tokens)) cl.

(** [classList.add]: a token set, so an existing token is not repeated. *)
Definition classList_add (token : jsstring) (cl : list jsstring) : list jsstring :=
  if existsb (str_eqb token) cl then cl else cl ++ [token].

(** The body of the loop of [updateSpans]. *)
Definition updateSpan (t : jsstring) (direction : option Direction) (sp : Span) : Span :=
  let cl := classList_remove [TICK_UP; TICK_DOWN] (classList sp) in
  let cl := match direction with Some up => classList_add TICK_UP cl | _ => cl end in
  let cl := match direction with Some down => classList_add TICK_DOWN cl | _ => cl end in
  {| data_ticker := data_ticker sp; textContent := t; classList := cl |}.

Definition updateSpans (a : jsstring) (t : jsstring) (direction : option Direction)
    (doc : document) : document :=
  map (fun sp => if str_eqb (data_ticker sp) a then updateSpan t direction sp else sp) doc.

Definition SPACE : jsstring := Eval cbv in lit " ".
Definition PERCENT_SIGN : jsstring := Eval cbv in lit "%".
Definition GLYPH_UP : jsstring := [9650%N].
Definition GLYPH_DOWN : jsstring := [9660%N].

Definition fmtTicker `{Host} (lbl : jsstring) (v : float) (dec : N)
    (sfx : option jsstring) (pct : option float) : jsstring :=
  let f := toLocaleString v (Some dec) (Some dec) in
  let t := lbl ++ SPACE ++ f in
  let t := match sfx with
           | Some s => if truthy_str s then t ++ s else t
           | None => t
           end in
  match pct with
  | Some p =>
      if isFinite p then
        t ++ SPACE ++ (if fge p pos_zero then GLYPH_UP else GLYPH_DOWN)
          ++ toFixed (fabs p) 2 ++ PERCENT_SIGN
      else t
  | None => t
  end.

(** *** Load live data *)

Definition hundred : float := Eval cbv in of_Z 100.

(** The percent change of [loadTicker]:
    [previous ? ((val - previous) / Math.abs(previous)) * 100 : null],
    where [previous] is the value of the previous point when there is one. *)
Definition percentChange (current : float) (prev : option float) : option float :=
  match prev with
  | Some p => Some (fmul (fdiv (fsub current p) (fabs p)) hundred)
  | None => None
  end.

(** The direction handed to [updateSpans]:
    [pct === null ? null : (pct >= 0 ? 'up' : 'down')]. *)
Definition direction (pct : option float) : option Direction :=
  match pct with
  | None => None
  | Some p => Some (if fge p pos_zero then up else down)
  end.

Inductive Settled (A : Type) :=
| Fulfilled (v : A)
| Rejected (reason : exn).
Arguments Fulfilled {A} v.
Arguments Rejected {A} reason.

Definition settle {A} (c : completion A) : Settled A :=
  match c with
  | Ok v => Fulfilled v
  | Throw e => Rejected e
  end.

(** [Promise.allSettled]: every promise is run to its own outcome, and the
    join itself never rejects.  The requests of the promises are listed
    promise by promise. *)
Fixpoint allSettled {A} (ps : list (Async A)) : Async (list (Settled A)) :=
  match ps with
  | [] => ret []
  | p :: rest =>
      fun w =>
        let (r, t) := p w in
        let (rs, t') := allSettled rest w in
        (cmap (cons (settle r)) rs, t ++ t')
  end.

(** [fetchFred(cfg.fred).then(pts => ({ cfg, pts }))]. *)
Definition fetchTicker `{Host} (cfg : TickerSpec) : Async (TickerSpec * list Point) :=
  pts <- fetchFred (fred cfg) ;;
  ret (cfg, pts).

(** The callback of [results.forEach]. *)
Definition renderResult `{Host} (doc : document)
    (r : Settled (TickerSpec * list Point)) : document :=
  match r with
  | Rejected _ => doc
  | Fulfilled (cfg, pts) =>
      let pair := latestPair pts in
      match latest pair with
      | None => doc
      | Some l =>
          let val := value l in
          let pct := percentChange val (option_map value (previous pair)) in
          updateSpans (attr cfg)
            (fmtTicker (label cfg) val (decimals cfg) (suffix cfg) pct)
            (direction pct) doc
      end
  end.

Definition loadFred `{Host} (tickers : list TickerSpec) (doc : document) : Async document :=
  results <- allSettled (map fetchTicker tickers) ;;
  ret (fold_left renderResult results doc).

Definition COINGECKO : jsstring := Eval cbv in
  lit "https://api.coingecko.com/api/v3/simple/price?ids=bitcoin&vs_currencies=usd&include_24hr_change=true".
Definition YAHOO_DJI : jsstring := Eval cbv in
  lit "https://query1.finance.yahoo.com/v8/finance/chart/%5EDJI?range=2d&interval=1d".
Definition BTC : jsstring := Eval cbv in lit "BTC".
Definition DJIA : jsstring := Eval cbv in lit "DJIA".

(** BTC via CoinGecko; a failure leaves the document as it is. *)
Definition loadBtc `{Host} (doc : document) : Async document :=
  try_catch
    (resp <- await_fetch {| url := COINGECKO; no_store := false |} ;;
     if ok resp then
       d <- lift (cbind (text resp) JSON_coingecko) ;;
       let price := usd d in
       let chg := usd_24h_change d in
       let arrow := if fge chg pos_zero then GLYPH_UP else GLYPH_DOWN in
       ret (updateSpans BTC
              (BTC ++ SPACE ++ toLocaleString price None (Some 0%N) ++ SPACE
                   ++ arrow ++ toFixed (fabs chg) 2 ++ PERCENT_SIGN)
              (Some (if fge chg pos_zero then up else down)) doc)
     else ret doc)
    (fun _ => ret doc).

(** DJIA via Yahoo Finance, through the relay chain. *)
Definition loadDjia `{Host} (doc : document) : Async document :=
  try_catch
    (raw <- fetchText YAHOO_DJI ;;
     data <- lift (JSON_chart raw) ;;
     let p := regularMarketPrice data in
     let prev := if truthy_num (chartPreviousClose data)
                 then chartPreviousClose data else previousClose data in
     let pct2 := if truthy_num prev
                 then Some (fmul (fdiv (fsub p prev) prev) hundred)
                 else None in
     ret (updateSpans DJIA (fmtTicker DJIA p 0 None pct2) (direction pct2) doc))
    (fun _ => ret doc).

Definition loadTickerWith `{Host} (tickers : list TickerSpec) (doc : document) : Async document :=
  doc1 <- loadFred tickers doc ;;
  doc2 <- loadBtc doc1 ;;
  loadDjia doc2.

Definition loadTicker `{Host} (doc : document) : Async document :=
  loadTickerWith fredTickers doc.

(** Init: the pass runs only on a page that has the ticker tape. *)
Definition init `{Host} (ticker_tape : bool) (doc : document) : Async document :=
  if ticker_tape then loadTicker doc else ret doc.

End Ticker.

Import Ticker.

(** ** steam-fetch.js *)

Module Steam.

(** Playtimes are whole minutes, as the Steam Web API reports them, so the
    hours derived from them are exact rationals. *)
Record Game := {
  appid : Z;
  name : jsstring;
  playtime_forever : option Z;
  playtime_2weeks : option Z;
  img_icon_url : option jsstring
}.

(** [data.response] of GetOwnedGames and of GetRecentlyPlayedGames. *)
Record GamesResponse := {
  game_count : option Z;
  games : option (list Game)
}.

Record Player := {
  personaname : option jsstring;
  profileurl : option jsstring;
  avatarmedium : option jsstring
}.

Record Response := {
  status : N;
  text : completion jsstring
}.

Definition ok (r : Response) : bool := between 200 299 (status r).

(** What the process finds when it starts. *)
Record World := {
  env : jsstring -> option jsstring;
  (** the assignments matched in [.env], line by line; [None] without the file *)
  dotenv : option (list (jsstring * jsstring));
  fetch : jsstring -> completion Response;
  clock : Z;
  dirname : jsstring;
  writeFileSync : jsstring -> jsstring -> completion unit
}.

(** The document written to [steam-data.json]. *)
Unset Elimination Schemes.
Inductive json :=
| JString (s : jsstring)
| JNumber (q : Q)
| JArray (items : list json)
| JObject (fields : list (jsstring * json)).
Set Elimination Schemes.

(** Functions of Node that the script calls and that are not modelled
    further: JSON reading (through the fields the script accesses; a
    document on which its property accesses throw is a failure), JSON
    writing with an indentation, date formatting and path joining. *)
Class Host := {
  JSON_games : jsstring -> completion GamesResponse;
  JSON_players : jsstring -> completion (list Player);
  JSON_stringify : json -> N -> jsstring;
  toISOString : Z -> jsstring;
  path_join : jsstring -> jsstring -> jsstring
}.

(** *** Environment *)

Definition setenv (e : jsstring -> option jsstring) (kv : jsstring * jsstring)
    : jsstring -> option jsstring :=
  fun k => if str_eqb k (fst kv) then Some (snd kv) else e k.

(** [process.env] once the [.env] file, if any, has been applied. *)
Definition process_env (w : World) : jsstring -> option jsstring :=
  match dotenv w with
  | Some assignments => fold_left setenv assignments (env w)
  | None => env w
  end.

Definition STEAM_API_KEY : jsstring := Eval cbv in lit "STEAM_API_KEY".
Definition STEAM_ID : jsstring := Eval cbv in lit "STEAM_ID".

(** Truthiness of [process.env.X]: set, and not the empty string. *)
Definition truthy_env (v : option jsstring) : bool :=
  match v with
  | Some s => truthy_str s
  | None => false
  end.

(** *** API helpers *)

(** The code points of a string, an unpaired surrogate read as U+FFFD. *)
Fixpoint code_points (s : jsstring) : list N :=
  match s with
  | [] => []
  | c :: rest =>
      if high_surrogate c then
        match rest with
        | c2 :: rest' =>
            if low_surrogate c2
            then ((c - 55296) * 1024 + (c2 - 56320) + 65536)%N :: code_points rest'
            else 65533%N :: code_points rest
        | [] => [65533%N]
        end
      else if low_surrogate c then 65533%N :: code_points rest
      else c :: code_points rest
  end.

(** The serializer of [URLSearchParams]. *)
Definition form_escape (cp : N) : jsstring :=
  if between 65 90 cp || between 97 122 cp || between 48 57 cp
     || N.eqb cp 42 || N.eqb cp 45 || N.eqb cp 46 || N.eqb cp 95 then [cp]
  else if N.eqb cp 32 then [43%N]
  else flat_map percent_escape (utf8_encode cp).

Definition form_urlencode (s : jsstring) : jsstring :=
  flat_map form_escape (code_points s).

Definition AMP : jsstring := Eval cbv in lit "&".
Definition EQ : jsstring := Eval cbv in lit "=".

Fixpoint URLSearchParams (params : list (jsstring * jsstring)) : jsstring :=
  match params with
  | [] => []
  | [(k, v)] => form_urlencode k ++ EQ ++ form_urlencode v
  | (k, v) :: rest =>
      form_urlencode k ++ EQ ++ form_urlencode v ++ AMP ++ URLSearchParams rest
  end.

Definition BASE : jsstring := Eval cbv in lit "https://api.steampowered.com".

Section Script.

Context `{Host}.
Variable w : World.
Variables API_KEY STEAM_ID_VALUE : jsstring.

Definition credentials : list (jsstring * jsstring) :=
  [ (lit "key", API_KEY); (lit "steamid", STEAM_ID_VALUE); (lit "format", lit "json") ].

Definition steamGet (iface method version : jsstring)
    (params : list (jsstring * jsstring)) : completion jsstring :=
  let qs := URLSearchParams (credentials ++ params) in
  let u := BASE ++ lit "/" ++ iface ++ lit "/" ++ method ++ lit "/v" ++ version
                ++ lit "/?" ++ qs in
  cbind (fetch w u) (fun res =>
    if negb (ok res) then Throw (Error (SteamFailed method (status res)))
    else text res).

Definition getOwnedGames : completion GamesResponse :=
  cbind (steamGet (lit "IPlayerService") (lit "GetOwnedGames") (lit "0001")
           [ (lit "include_appinfo", lit "1");
             (lit "include_played_free_games", lit "1") ])
        JSON_games.

Definition getRecentlyPlayed : completion GamesResponse :=
  cbind (steamGet (lit "IPlayerService") (lit "GetRecentlyPlayedGames") (lit "0001")
           [ (lit "count", lit "10") ])
        JSON_games.

Definition no_player : Player :=
  {| personaname := None; profileurl := None; avatarmedium := None |}.

Definition getPlayerSummary : completion Player :=
  let qs := URLSearchParams
              [ (lit "key", API_KEY); (lit "steamids", STEAM_ID_VALUE);
                (lit "format", lit "json") ] in
  let u := BASE ++ lit "/ISteamUser/GetPlayerSummaries/v0002/?" ++ qs in
  cbind (fetch w u) (fun res =>
    if negb (ok res) then Throw (Error (PlayerSummariesFailed (status res)))
    else cbind (cbind (text res) JSON_players) (fun players =>
           Ok (match players with p :: _ => p | [] => no_player end))).

End Script.

(** [Promise.all] of the three requests: it rejects as soon as one of them
    does.  When several reject, the reason kept here is the one of the
    first in the array; the script only uses that there is one. *)
Definition Promise_all3 {A B C} (a : completion A) (b : completion B)
    (c : completion C) : completion (A * B * C) :=
  match a, b, c with
  | Ok x, Ok y, Ok z => Ok (x, y, z)
  | Throw e, _, _ => Throw e
  | _, Throw e, _ => Throw e
  | _, _, Throw e => Throw e
  end.

(** *** Aggregates *)

(** [x || 0] on a playtime. *)
Definition or_zero (x : option Z) : Z :=
  match x with Some v => v | None => 0%Z end.

(** [x || ''] on a string field. *)
Definition or_empty (x : option jsstring) : jsstring :=
  match x with Some v => v | None => [] end.

Definition playtime (g : Game) : Z := or_zero (playtime_forever g).

(** [Math.round]: the nearest integer, halves going up. *)
Definition Math_round (q : Q) : Z := Qfloor (q + (1 # 2)).

(** [Math.round(minutes / 60 * 10) / 10]. *)
Definition hours_1dp (minutes : Z) : Q :=
  inject_Z (Math_round (inject_Z minutes / 60 * 10)) / 10.

(** The stable sort of [Array.prototype.sort] under the comparator
    [(a, b) => playtime(b) - playtime(a)]. *)
Fixpoint insert_by_playtime (g : Game) (sorted : list Game) : list Game :=
  match sorted with
  | [] => [g]
  | h :: t =>
      if (playtime g <? playtime h)%Z then h :: insert_by_playtime g t
      else g :: h :: t
  end.

Definition sort_by_playtime (gs : list Game) : list Game :=
  fold_right insert_by_playtime [] gs.

Definition top_entry (g : Game) : json :=
  JObject [ (lit "appid", JNumber (inject_Z (appid g)));
            (lit "name", JString (name g));
            (lit "hours", JNumber (hours_1dp (playtime g)));
            (lit "img_icon_url", JString (or_empty (img_icon_url g))) ].

Definition topByPlaytime (gs : list Game) : list json :=
  map top_entry (slice (sort_by_playtime (slice gs 0 None)) 0 (Some 10%Z)).

Definition recent_entry (g : Game) : json :=
  JObject [ (lit "appid", JNumber (inject_Z (appid g)));
            (lit "name", JString (name g));
            (lit "hours_2weeks", JNumber (hours_1dp (or_zero (playtime_2weeks g))));
            (lit "hours_total", JNumber (hours_1dp (playtime g)));
            (lit "img_icon_url", JString (or_empty (img_icon_url g))) ].

Definition played (g : Game) : bool := (0 <? playtime g)%Z.

Definition playedCount (gs : list Game) : Z :=
  Z.of_nat (length (filter played gs)).

(** The five counters of [buckets], in the order of the object literal. *)
Record Buckets := {
  b_100_plus : Z;
  b_50_100 : Z;
  b_10_50 : Z;
  b_1_10 : Z;
  b_under_1 : Z
}.

Definition no_buckets : Buckets :=
  {| b_100_plus := 0; b_50_100 := 0; b_10_50 := 0; b_1_10 := 0; b_under_1 := 0 |}.

(** The callback of [games.forEach]. *)
Definition count_game (b : Buckets) (g : Game) : Buckets :=
  let h := inject_Z (playtime g) / 60 in
  if Qle_bool 100 h then
    {| b_100_plus := b_100_plus b + 1; b_50_100 := b_50_100 b;
       b_10_50 := b_10_50 b; b_1_10 := b_1_10 b; b_under_1 := b_under_1 b |}
  else if Qle_bool 50 h then
    {| b_100_plus := b_100_plus b; b_50_100 := b_50_100 b + 1;
       b_10_50 := b_10_50 b; b_1_10 := b_1_10 b; b_under_1 := b_under_1 b |}
  else if Qle_bool 10 h then
    {| b_100_plus := b_100_plus b; b_50_100 := b_50_100 b;
       b_10_50 := b_10_50 b + 1; b_1_10 := b_1_10 b; b_under_1 := b_under_1 b |}
  else if Qle_bool 1 h then
    {| b_100_plus := b_100_plus b; b_50_100 := b_50_100 b;
       b_10_50 := b_10_50 b; b_1_10 := b_1_10 b + 1; b_under_1 := b_under_1 b |}
  else if negb (Qle_bool h 0) then
    {| b_100_plus := b_100_plus b; b_50_100 := b_50_100 b;
       b_10_50 := b_10_50 b; b_1_10 := b_1_10 b; b_under_1 := b_under_1 b + 1 |}
  else b.

Definition playtimeBuckets (gs : list Game) : Buckets :=
  fold_left count_game gs no_buckets.

Definition buckets_total (b : Buckets) : Z :=
  (b_100_plus b + b_50_100 b + b_10_50 b + b_1_10 b + b_under_1 b)%Z.

Definition buckets_json (b : Buckets) : json :=
  JObject [ (lit "100h+", JNumber (inject_Z (b_100_plus b)));
            (lit "50-100h", JNumber (inject_Z (b_50_100 b)));
            (lit "10-50h", JNumber (inject_Z (b_10_50 b)));
            (lit "1-10h", JNumber (inject_Z (b_1_10 b)));
            (lit "<1h", JNumber (inject_Z (b_under_1 b))) ].

(** *** Main *)

(** The object [output] of the main pipeline. *)
Definition output `{Host} (w : World) (owned recent : GamesResponse)
    (profile : Player) : json :=
  let gs := match games owned with Some l => l | None => [] end in
  let totalGames :=
    match game_count owned with
    | Some n => if (n =? 0)%Z then Z.of_nat (length gs) else n
    | None => Z.of_nat (length gs)
    end in
  let totalMinutes := fold_left (fun sum g => (sum + playtime g)%Z) gs 0%Z in
  let totalHours := Math_round (inject_Z totalMinutes / 60) in
  let recentGames :=
    map recent_entry (match games recent with Some l => l | None => [] end) in
  let neverPlayed := (totalGames - playedCount gs)%Z in
  JObject
    [ (lit "fetchedAt", JString (toISOString (clock w)));
      (lit "profile",
       JObject [ (lit "name", JString (or_empty (personaname profile)));
                 (lit "profileUrl", JString (or_empty (profileurl profile)));
                 (lit "avatar", JString (or_empty (avatarmedium profile))) ]);
      (lit "stats",
       JObject [ (lit "totalGames", JNumber (inject_Z totalGames));
                 (lit "totalHours", JNumber (inject_Z totalHours));
                 (lit "playedCount", JNumber (inject_Z (playedCount gs)));
                 (lit "neverPlayed", JNumber (inject_Z neverPlayed));
                 (lit "playtimeBuckets", buckets_json (playtimeBuckets gs)) ]);
      (lit "recentlyPlayed", JArray recentGames);
      (lit "topByPlaytime", JArray (topByPlaytime gs)) ].

Definition OUT_FILE : jsstring := Eval cbv in lit "steam-data.json".

(** The asynchronous main function: the path and the text it wrote. *)
Definition main `{Host} (w : World) (key id : jsstring)
    : completion (jsstring * jsstring) :=
  cbind (Promise_all3 (getOwnedGames w key id) (getRecentlyPlayed w key id)
                      (getPlayerSummary w key id))
    (fun '(owned, recent, profile) =>
       let outPath := path_join (dirname w) OUT_FILE in
       let data := JSON_stringify (output w owned recent profile) 2 in
       cbind (writeFileSync w outPath data) (fun _ => Ok (outPath, data))).

(** How the process ends: its exit status, and the file a completed
    [writeFileSync] left. *)
Record Outcome := {
  exit_code : Z;
  written : option (jsstring * jsstring)
}.

Definition script `{Host} (w : World) : Outcome :=
  let API_KEY := process_env w STEAM_API_KEY in
  let STEAM_ID_VALUE := process_env w STEAM_ID in
  if negb (truthy_env API_KEY) || negb (truthy_env STEAM_ID_VALUE) then
    {| exit_code := 1; written := None |}
  else
    match main w (or_empty API_KEY) (or_empty STEAM_ID_VALUE) with
    | Ok file => {| exit_code := 0; written := Some file |}
    | Throw _ => {| exit_code := 1; written := None |}
    end.

End Steam.

Unset Implicit Arguments.

(** ** drawer.js *)

Module Drawer.

(** The page as the controller reads and writes it: the class list of
    [#site-drawer] when the element exists, the [aria-expanded] attribute
    of every [data-drawer-toggle] element in document order, and the
    toggle the controller last gave the focus to. *)
Record Page := {
  drawer : option (list jsstring);
  toggles : list (option jsstring);
  focused : option nat
}.

Definition OPEN : jsstring := Eval cbv in lit "open".
Definition TRUE : jsstring := Eval cbv in lit "true".
Definition FALSE : jsstring := Eval cbv in lit "false".
Definition ESCAPE : jsstring := Eval cbv in lit "Escape".

(** [if (!drawer || toggles.length === 0) return;]: whether the listeners
    are registered at all. *)
Definition installed (p : Page) : bool :=
  match drawer p, toggles p with
  | Some _, _ :: _ => true
  | _, _ => false
  end.

(** [drawer.classList.contains('open')]. *)
Definition is_open (p : Page) : bool :=
  match drawer p with
  | Some cl => existsb (str_eqb OPEN) cl
  | None => false
  end.

(** [classList.toggle('open', isOpen)] and the [aria-expanded] of every
    toggle. *)
Definition setOpen (isOpen : bool) (p : Page) : Page :=
  {| drawer :=
       option_map (fun cl => if isOpen then classList_add OPEN cl
                             else classList_remove [OPEN] cl) (drawer p);
     toggles := map (fun _ => Some (if isOpen then TRUE else FALSE)) (toggles p);
     focused := focused p |}.

(** An element on the way of a click from its target up to the document,
    by the listeners it carries and by what it is: whether it is one of
    the [data-drawer-toggle] elements, whether it is an [<a>] inside the
    drawer, whether it is [#site-drawer] itself.  The same element can be
    a toggle and a link of the drawer at once: it then carries both
    listeners. *)
Record node := {
  is_toggle : bool;
  is_link : bool;
  is_drawer : bool
}.

(** The elements with one role, or none. *)
Definition Toggle : node :=
  {| is_toggle := true; is_link := false; is_drawer := false |}.
Definition Link : node :=
  {| is_toggle := false; is_link := true; is_drawer := false |}.
Definition TheDrawer : node :=
  {| is_toggle := false; is_link := false; is_drawer := true |}.
Definition Other : node :=
  {| is_toggle := false; is_link := false; is_drawer := false |}.

Inductive event :=
| Click (path : list node)
| KeyDown (key : jsstring).

(** The listener of [document]: a click outside the drawer and outside
    every toggle closes. *)
Definition document_click (path : list node) (p : Page) : Page :=
  if negb (existsb is_drawer path) && negb (existsb is_toggle path)
  then setOpen false p else p.

(** The listeners of one element, in the order the script registers
    them: the one of a toggle flips, then the one of a link closes. *)
Definition at_node (n : node) (p : Page) : Page :=
  let p1 := if is_toggle n then setOpen (negb (is_open p)) p else p in
  if is_link n then setOpen false p1 else p1.

(** The click bubbles: every listener of an element runs, a toggle stops
    the click from going further up ([event.stopPropagation()]), the
    listener of the document comes last.  [path] is the whole way, [rest]
    what is left. *)
Fixpoint bubble (path rest : list node) (p : Page) : Page :=
  match rest with
  | [] => document_click path p
  | n :: rest' =>
      if is_toggle n then at_node n p else bubble path rest' (at_node n p)
  end.

Definition keydown (key : jsstring) (p : Page) : Page :=
  if str_eqb key ESCAPE then
    let p' := setOpen false p in
    {| drawer := drawer p'; toggles := toggles p';
       focused := match toggles p' with _ :: _ => Some 0%nat | [] => focused p' end |}
  else p.

Definition handle (ev : event) (p : Page) : Page :=
  if installed p then
    match ev with
    | Click path => bubble path path p
    | KeyDown key => keydown key p
    end
  else p.

Definition run (evs : list event) (p : Page) : Page :=
  fold_left (fun p ev => handle ev p) evs p.

End Drawer.

(** ** Vocabulary of the statements *)

(** [s] begins with [p]. *)
Definition begins_with (p s : jsstring) : Prop := exists r, s = p ++ r.

(** [needle] occurs somewhere in [s]. *)
Definition occurs_in (needle s : jsstring) : Prop :=
  exists a b, s = a ++ needle ++ b.

(** The metadata segment declares a base64 encoding. *)
Definition declares_base64 (metadata : jsstring) : Prop :=
  occurs_in BASE64_MARK metadata.

(** A wrapped payload: a metadata segment that begins with the wrapper
    prefix, the first comma of the text, and the payload segment. *)
Definition wrapped (s metadata payload : jsstring) : Prop :=
  s = metadata ++ COMMA ++ payload
  /\ begins_with DATA_PREFIX metadata
  /\ ~ In COMMA_UNIT metadata.

(** Line terminators of a delimited text. *)
Inductive eol := EolLF | EolCRLF.

Definition eol_units (e : eol) : jsstring :=
  match e with
  | EolLF => [LF]
  | EolCRLF => [CR; LF]
  end.

(** A text given by its first line and the lines after it, each with the
    terminator that separates it from the line before. *)
Fixpoint join_lines (first : jsstring) (rest : list (eol * jsstring)) : jsstring :=
  match rest with
  | [] => first
  | (e, l) :: rest' => first ++ eol_units e ++ join_lines l rest'
  end.

Definition ends_with_cr (l : jsstring) : Prop := exists l', l = l' ++ [CR].

(** The lines are lines: none holds a line feed, and none that a bare line
    feed terminates ends with a carriage return (the two would form one
    terminator). *)
Fixpoint lines_ok (first : jsstring) (rest : list (eol * jsstring)) : Prop :=
  ~ In LF first
  /\ match rest with
     | [] => True
     | (e, l) :: rest' => (e = EolLF -> ~ ends_with_cr first) /\ lines_ok l rest'
     end.






(** The requests of the three transport paths for an encoded target. *)
Definition codetabs_request (q : jsstring) : Request :=
  {| url := CODETABS ++ q; no_store := true |}.
Definition allorigins_get_request (q : jsstring) : Request :=
  {| url := ALLORIGINS_GET ++ q; no_store := true |}.
Definition allorigins_raw_request (q : jsstring) : Request :=
  {| url := ALLORIGINS_RAW ++ q; no_store := true |}.

(** An attempt failed. *)
Definition failed {A} (c : completion A) : Prop := exists e, c = Throw e.

(** What the render of one ticker does to a span bound to it. *)
Definition rendered `{Host} (cfg : TickerSpec) (pts : list Point) (sp : Span) : Span :=
  match latest (latestPair pts) with
  | None => sp
  | Some l =>
      let pct := percentChange (value l) (option_map value (previous (latestPair pts))) in
      updateSpan (fmtTicker (label cfg) (value l) (decimals cfg) (suffix cfg) pct)
                 (direction pct) sp
  end.

(** What one settled result does to a span. *)
Definition render_span `{Host} (r : Settled (TickerSpec * list Point)) (sp : Span) : Span :=
  match r with
  | Rejected _ => sp
  | Fulfilled (cfg, pts) =>
      if str_eqb (data_ticker sp) (attr cfg) then rendered cfg pts sp else sp
  end.

(** The outcome of the pipeline of one ticker in a world. *)
Definition outcome `{Host} (w : World) (cfg : TickerSpec) : completion (list Point) :=
  fst (fetchFred (fred cfg) w).

(** The three requests of the build script, for given credentials. *)
Definition owned_url (key id : jsstring) : jsstring :=
  Steam.BASE ++ lit "/IPlayerService/GetOwnedGames/v0001/?"
    ++ Steam.URLSearchParams
         [ (lit "key", key); (lit "steamid", id); (lit "format", lit "json");
           (lit "include_appinfo", lit "1");
           (lit "include_played_free_games", lit "1") ].

Definition recent_url (key id : jsstring) : jsstring :=
  Steam.BASE ++ lit "/IPlayerService/GetRecentlyPlayedGames/v0001/?"
    ++ Steam.URLSearchParams
         [ (lit "key", key); (lit "steamid", id); (lit "format", lit "json");
           (lit "count", lit "10") ].

Definition summary_url (key id : jsstring) : jsstring :=
  Steam.BASE ++ lit "/ISteamUser/GetPlayerSummaries/v0002/?"
    ++ Steam.URLSearchParams
         [ (lit "key", key); (lit "steamids", id); (lit "format", lit "json") ].

(** An upstream HTTP error: the request is rejected, or answered with a
    status outside 200..299. *)
Definition http_error (w : Steam.World) (u : jsstring) : Prop :=
  (exists e, Steam.fetch w u = Throw e)
  \/ (exists res, Steam.fetch w u = Ok res /\ Steam.ok res = false).

(** The fatal end of the script. *)
Definition fatal : Steam.Outcome :=
  {| Steam.exit_code := 1; Steam.written := None |}.

(** The names of the top-level fields of a written document. *)
Definition top_level_fields (doc : Steam.json) : list jsstring :=
  match doc with
  | Steam.JObject fields => map fst fields
  | _ => []
  end.

(** The playtime buckets by their bounds in minutes. *)
Inductive Bucket := H100_plus | H50_100 | H10_50 | H1_10 | Hunder_1.

Definition bucket_of_minutes (m : Z) : option Bucket :=
  if (6000 <=? m)%Z then Some H100_plus
  else if (3000 <=? m)%Z then Some H50_100
  else if (600 <=? m)%Z then Some H10_50
  else if (60 <=? m)%Z then Some H1_10
  else if (0 <? m)%Z then Some Hunder_1
  else None.

(** One more game in a bucket, the other counters as they are. *)
Definition bump (k : Bucket) (b : Steam.Buckets) : Steam.Buckets :=
  let (c1, c2, c3, c4, c5) := b in
  match k with
  | H100_plus => Steam.Build_Buckets (c1 + 1) c2 c3 c4 c5
  | H50_100 => Steam.Build_Buckets c1 (c2 + 1) c3 c4 c5
  | H10_50 => Steam.Build_Buckets c1 c2 (c3 + 1) c4 c5
  | H1_10 => Steam.Build_Buckets c1 c2 c3 (c4 + 1) c5
  | Hunder_1 => Steam.Build_Buckets c1 c2 c3 c4 (c5 + 1)
  end.

(** Every toggle announces the state of the drawer. *)
Definition in_sync (p : Drawer.Page) : Prop :=
  Forall (fun a => a = Some (if Drawer.is_open p then Drawer.TRUE else Drawer.FALSE))
         (Drawer.toggles p).

(** Elements of which none is a toggle and none a link of the drawer. *)
Definition plain_path (path : list Drawer.node) : Prop :=
  Forall (fun n => Drawer.is_toggle n = false /\ Drawer.is_link n = false) path.

(** Two states of a page with the same toggles, the same drawer and, on
    it, the same class tokens apart from [open]. *)
Definition same_frame (p q : Drawer.Page) : Prop :=
  length (Drawer.toggles q) = length (Drawer.toggles p)
  /\ match Drawer.drawer p, Drawer.drawer q with
     | Some cl, Some cl' =>
         forall c, c <> Drawer.OPEN ->
                   existsb (str_eqb c) cl' = existsb (str_eqb c) cl
     | None, None => True
     | _, _ => False
     end.

(** The direction is [up]; the direction is [down]. *)
Definition is_up (d : option Direction) : bool :=
  match d with Some up => true | _ => false end.

Definition is_down (d : option Direction) : bool :=
  match d with Some down => true | _ => false end.

(** A class token is on a class list. *)
Definition has_class (token : jsstring) (cl : list jsstring) : bool :=
  existsb (str_eqb token) cl.

(** A field of a written object, and a field of a field. *)
Definition json_field (k : jsstring) (doc : Steam.json) : option Steam.json :=
  match doc with
  | Steam.JObject fields =>
      match find (fun kv => str_eqb k (fst kv)) fields with
      | Some kv => Some (snd kv)
      | None => None
      end
  | _ => None
  end.

Definition json_path2 (k1 k2 : jsstring) (doc : Steam.json) : option Steam.json :=
  match json_field k1 doc with
  | Some d => json_field k2 d
  | None => None
  end.

(** The games of an answer, and the games never played among them. *)
Definition games_of (r : Steam.GamesResponse) : list Steam.Game :=
  match Steam.games r with Some l => l | None => [] end.

Definition unplayed (gs : list Steam.Game) : Z :=
  Z.of_nat (length (filter (fun g => negb (Steam.played g)) gs)).

(** Ordered by decreasing playtime. *)
Definition longer_played (a b : Steam.Game) : Prop :=
  (Steam.playtime b <= Steam.playtime a)%Z.

(** ** A concrete run

    The fallback scenario: the S&P 500 series is asked for; codetabs
    answers 500, allorigins in wrapped mode answers a base64 wrapper with
    an empty payload, allorigins in raw mode answers the series; every
    other request is rejected. *)

Module Scenario.

Definition csv : jsstring :=
  lit "DATE,SP500" ++ [LF]
  ++ lit "2024-01-02,4742.83" ++ [CR; LF]
  ++ lit "2024-01-03,." ++ [LF]
  ++ [LF]
  ++ lit "2024-01-04,4688.68" ++ [LF].

Definition header : jsstring := lit "DATE,SP500".

Definition rows : list (eol * jsstring) :=
  [ (EolLF, lit "2024-01-02,4742.83");
    (EolCRLF, lit "2024-01-03,.");
    (EolLF, []);
    (EolLF, lit "2024-01-04,4688.68");
    (EolLF, []) ].

Definition kinds : list (option Point) :=
  [ Some {| date := lit "2024-01-02"; value := Number (lit "4742.83") |};
    None;
    None;
    Some {| date := lit "2024-01-04"; value := Number (lit "4688.68") |};
    None ].



(** A series that starts from zero. *)
Definition zero_csv : jsstring :=
  lit "DATE,SP500" ++ [LF] ++ lit "2024-01-02,0" ++ [LF] ++ lit "2024-01-03,5".

Definition target : jsstring := FRED_CSV ++ lit "SP500".

Definition encoded : jsstring := Eval cbv in
  match encodeURIComponent target with
  | Ok q => q
  | Throw _ => []
  end.

Definition world : World :=
  {| fetch := fun rq =>
       if str_eqb (url rq) (CODETABS ++ encoded) then
         Ok {| status := 500; text := Ok [] |}
       else if str_eqb (url rq) (ALLORIGINS_GET ++ encoded) then
         Ok {| status := 200; text := Ok (lit "{}") |}
       else if str_eqb (url rq) (ALLORIGINS_RAW ++ encoded) then
         Ok {| status := 200; text := Ok csv |}
       else Throw TypeError |}.

(** A host that formats every number as [#] and reads every allorigins
    body as the wrapper of an empty base64 payload. *)
Definition host : Host :=
  {| toLocaleString := fun _ _ _ => lit "#";
     toFixed := fun _ _ => lit "#";
     JSON_allorigins := fun _ =>
       Ok {| contents := Some (lit "data:text/plain;base64,") |};
     JSON_coingecko := fun _ => Throw SyntaxError;
     JSON_chart := fun _ => Throw SyntaxError |}.

Definition sp500 : TickerSpec :=
  {| attr := lit "SP500"; fred := lit "SP500"; label := lit "S&P 500";
     decimals := 0; suffix := None |}.

Definition nasdaq : TickerSpec :=
  {| attr := lit "NASDAQ"; fred := lit "NASDAQCOM"; label := lit "NASDAQ";
     decimals := 0; suffix := None |}.

Definition sp500_span : Span :=
  {| data_ticker := lit "SP500"; textContent := lit "S&P 500 ---";
     classList := [lit "tick"; lit "tick--down"] |}.

Definition nasdaq_span : Span :=
  {| data_ticker := lit "NASDAQ"; textContent := lit "NASDAQ ---";
     classList := [lit "tick"; lit "tick--up"] |}.

Definition page : document := [sp500_span; nasdaq_span].


(** The build script with both credentials in the environment, three
    answers with status 200 and a disk that accepts the write. *)
Definition library : list Steam.Game :=
  [ {| Steam.appid := 620; Steam.name := lit "Portal 2";
       Steam.playtime_forever := Some 7200%Z; Steam.playtime_2weeks := None;
       Steam.img_icon_url := None |};
    {| Steam.appid := 400; Steam.name := lit "Portal";
       Steam.playtime_forever := Some 45%Z; Steam.playtime_2weeks := Some 45%Z;
       Steam.img_icon_url := None |};
    {| Steam.appid := 440; Steam.name := lit "Team Fortress 2";
       Steam.playtime_forever := None; Steam.playtime_2weeks := None;
       Steam.img_icon_url := None |} ].

Definition steam_host : Steam.Host :=
  {| Steam.JSON_games := fun _ =>
       Ok {| Steam.game_count := Some 3%Z; Steam.games := Some library |};
     Steam.JSON_players := fun _ => Ok [];
     Steam.JSON_stringify := fun _ _ => lit "{}";
     Steam.toISOString := fun _ => lit "2024-01-05T00:00:00.000Z";
     Steam.path_join := fun a b => a ++ lit "/" ++ b |}.

Definition steam_world : Steam.World :=
  {| Steam.env := fun k =>
       if str_eqb k Steam.STEAM_API_KEY then Some (lit "KEY")
       else if str_eqb k Steam.STEAM_ID then Some (lit "7656")
       else None;
     Steam.dotenv := None;
     Steam.fetch := fun _ => Ok {| Steam.status := 200; Steam.text := Ok (lit "{}") |};
     Steam.clock := 0;
     Steam.dirname := lit "/site";
     Steam.writeFileSync := fun _ _ => Ok tt |}.

(** A machine whose only credential is the API key of its [.env] file. *)
Definition steam_world_no_id : Steam.World :=
  {| Steam.env := fun _ => None;
     Steam.dotenv := Some [ (Steam.STEAM_API_KEY, lit "KEY") ];
     Steam.fetch := Steam.fetch steam_world;
     Steam.clock := 0;
     Steam.dirname := lit "/site";
     Steam.writeFileSync := fun _ _ => Ok tt |}.


(** The same series with line feeds only and no blank line, under another
    header. *)
Definition compact_rows : list (eol * jsstring) :=
  [ (EolLF, lit "2024-01-02,4742.83");
    (EolLF, lit "2024-01-03,.");
    (EolLF, lit "2024-01-04,4688.68") ].

(** A page with a closed drawer and two toggles that do not announce it. *)
Definition drawer_page : Drawer.Page :=
  {| Drawer.drawer := Some [lit "drawer"];
     Drawer.toggles := [None; Some (lit "true")];
     Drawer.focused := None |}.

(** A link of the drawer that carries [data-drawer-toggle] as well. *)
Definition toggle_link : Drawer.node :=
  {| Drawer.is_toggle := true; Drawer.is_link := true; Drawer.is_drawer := false |}.

(** The same page once a toggle has been clicked twice. *)
Definition synced_page : Drawer.Page :=
  {| Drawer.drawer := Some [lit "drawer"];
     Drawer.toggles := [Some (lit "false"); Some (lit "false")];
     Drawer.focused := None |}.


(** A chart answer without previous close: absent under its first name,
    zero under the second. *)
Definition djia_host : Host :=
  {| toLocaleString := fun _ _ _ => lit "#";
     toFixed := fun _ _ => lit "#";
     JSON_allorigins := fun _ => Throw SyntaxError;
     JSON_coingecko := fun _ => Throw SyntaxError;
     JSON_chart := fun _ =>
       Ok {| regularMarketPrice := of_Z 39000;
             chartPreviousClose := NaN;
             previousClose := pos_zero |} |}.

(** A network on which every request is answered with status 200. *)
Definition open_world : World :=
  {| fetch := fun _ => Ok {| status := 200; text := Ok (lit "{}") |} |}.

Definition djia_span : Span :=
  {| data_ticker := lit "DJIA"; textContent := lit "DJIA ---";
     classList := [lit "tick--up"; lit "tick"] |}.


(** A host that reads every allorigins body as a wrapper whose payload is
    a lone percent sign. *)
Definition malformed_host : Host :=
  {| toLocaleString := fun _ _ _ => lit "#";
     toFixed := fun _ _ => lit "#";
     JSON_allorigins := fun _ => Ok {| contents := Some (lit "data:,%") |};
     JSON_coingecko := fun _ => Throw SyntaxError;
     JSON_chart := fun _ => Throw SyntaxError |}.

End Scenario.

(** ** Tactics for concrete texts *)

(** A concrete text does not hold a given unit. *)
Ltac not_in_units := cbv; intuition discriminate.

(** A concrete text does not end with a carriage return. *)
Ltac no_trailing_cr :=
  let l' := fresh in let K := fresh in
  intros _ [l' K];
  apply (f_equal (fun l => last l 0%N)) in K;
  rewrite last_last in K; discriminate K.


Example atob_hello :
  atob (lit "SGVsbG8=") = Ok (lit "Hello").
Proof. reflexivity. Qed.

Example atob_bad : atob (lit "!") = Throw InvalidCharacterError.
Proof. reflexivity. Qed.

Example decodeURI_ok :
  decodeURIComponent (lit "a%2Cb%E2%96%B2") = Ok (lit "a,b" ++ [9650%N]).
Proof. reflexivity. Qed.

Example encodeURI_ok :
  encodeURIComponent (lit "a,b?id=S&P") = Ok (lit "a%2Cb%3Fid%3DS%26P").
Proof. reflexivity. Qed.

Example Number_tenth :
  Number (lit "0.1") = S754_finite false 7205759403792794 (-56).
Proof. vm_compute. reflexivity. Qed.

Example Number_samples :
  Number (lit "1834.5") = S754_finite false 8068216324620288 (-42)
  /\ Number (lit "") = pos_zero
  /\ Number (lit ".") = NaN
  /\ Number (lit " 12 ") = of_Z 12
  /\ Number (lit "-0") = S754_zero true
  /\ Number (lit "0x10") = of_Z 16
  /\ Number (lit "1e3") = of_Z 1000
  /\ Number (lit "5e-324") = S754_finite false 1 (-1074)
  /\ Number (lit "2e-324") = pos_zero
  /\ Number (lit "1.7976931348623158e308") = S754_finite false 9007199254740991 971
  /\ Number (lit "1.7976931348623159e308") = S754_infinity false
  /\ Number (lit "1e") = NaN
  /\ Number (lit "12px") = NaN
  /\ Number (lit "-Infinity") = S754_infinity true.
Proof. vm_compute. repeat split. Qed.

(** ** Strings: searching and slicing *)

Section StringFacts.

Lemma starts_with_app (p r : jsstring) : starts_with p (p ++ r) = true.
Proof.
  induction p as [|x p IH]; simpl; [reflexivity|].
  now rewrite N.eqb_refl, IH.
Qed.

Lemma starts_with_begins (p s : jsstring) :
  starts_with p s = true <-> begins_with p s.
Proof.
  split.
  - revert s. induction p as [|x p IH]; intros s Hs.
    + now exists s.
    + destruct s as [|y s]; simpl in Hs; [discriminate|].
      apply andb_true_iff in Hs. destruct Hs as [Hxy Hp].
      apply N.eqb_eq in Hxy. subst y.
      destruct (IH _ Hp) as [r ->]. now exists r.
  - intros [r ->]. apply starts_with_app.
Qed.

Lemma indexOf_from_range (needle s : jsstring) (k : Z) :
  indexOf_from needle s k = (-1)%Z
  \/ (k <= indexOf_from needle s k <= k + Z.of_nat (length s))%Z.
Proof.
  revert k. induction s as [|c s IH]; intros k; simpl.
  - destruct (starts_with needle []); [right; lia | now left].
  - destruct (starts_with needle (c :: s)); [right; lia|].
    destruct (IH (k + 1)%Z) as [E|E]; [now left | right; lia].
Qed.

Lemma indexOf_zero (s needle : jsstring) :
  indexOf s needle = 0%Z <-> begins_with needle s.
Proof.
  rewrite <- starts_with_begins. unfold indexOf.
  destruct s as [|c s]; simpl.
  - destruct (starts_with needle []); split; intros; try easy.
  - destruct (starts_with needle (c :: s)); split; intros E; try easy.
    pose proof (indexOf_from_range needle s 1). lia.
Qed.

Lemma indexOf_from_missing (needle s : jsstring) (k : Z) :
  (0 <= k)%Z ->
  indexOf_from needle s k = (-1)%Z <-> ~ occurs_in needle s.
Proof.
  revert k. induction s as [|c s IH]; intros k Hk; simpl.
  - destruct (starts_with needle []) eqn:E.
    + split; [lia|]. intros Hn. exfalso. apply Hn.
      apply starts_with_begins in E. destruct E as [r E].
      exists [], r. exact E.
    + split; [|reflexivity]. intros _ (a & b & E').
      destruct a; [|discriminate]. simpl in E'.
      assert (begins_with needle []) as B by (now exists b).
      apply starts_with_begins in B. congruence.
  - destruct (starts_with needle (c :: s)) eqn:E.
    + split; [lia|]. intros Hn. exfalso. apply Hn.
      apply starts_with_begins in E. destruct E as [r E].
      exists [], r. exact E.
    + rewrite (IH (k + 1)%Z) by lia. split; intros Hn (a & b & E').
      * destruct a as [|x a]; simpl in E'.
        -- assert (begins_with needle (c :: s)) as B by (now exists b).
           apply starts_with_begins in B. congruence.
        -- injection E' as _ E'. apply Hn. now exists a, b.
      * apply Hn. exists (c :: a), b. simpl. now rewrite E'.
Qed.

Lemma indexOf_from_found (needle s : jsstring) (k : Z) :
  indexOf_from needle s k <> (-1)%Z -> occurs_in needle s.
Proof.
  revert k. induction s as [|c s IH]; intros k; simpl.
  - destruct (starts_with needle []) eqn:S; [|easy].
    intros _. apply starts_with_begins in S. destruct S as [r S].
    exists [], r. exact S.
  - destruct (starts_with needle (c :: s)) eqn:S.
    + intros _. apply starts_with_begins in S. destruct S as [r S].
      exists [], r. exact S.
    + intros E. destruct (IH _ E) as (a & b & ->).
      now exists (c :: a), b.
Qed.

Lemma indexOf_missing (s needle : jsstring) :
  indexOf s needle = (-1)%Z <-> ~ occurs_in needle s.
Proof. apply indexOf_from_missing. lia. Qed.

Lemma indexOf_from_unit (c : code_unit) (pre post : jsstring) (k : Z) :
  ~ In c pre ->
  indexOf_from [c] (pre ++ c :: post) k = (k + Z.of_nat (length pre))%Z.
Proof.
  revert k. induction pre as [|x pre IH]; intros k Hin; simpl.
  - rewrite N.eqb_refl. simpl. lia.
  - destruct (N.eqb_spec c x) as [->|Hne].
    + exfalso. apply Hin. now left.
    + simpl. rewrite IH; [lia|]. intros Hc. apply Hin. now right.
Qed.

Lemma indexOf_from_unit_missing (c : code_unit) (s : jsstring) (k : Z) :
  ~ In c s -> indexOf_from [c] s k = (-1)%Z.
Proof.
  revert k. induction s as [|x s IH]; intros k Hin; simpl; [reflexivity|].
  destruct (N.eqb_spec c x) as [->|Hne].
  - exfalso. apply Hin. now left.
  - simpl. apply IH. intros Hc. apply Hin. now right.
Qed.

Lemma slice_before {A} (pre : list A) (c : A) (post : list A) :
  slice (pre ++ c :: post) 0 (Some (Z.of_nat (length pre))) = pre.
Proof.
  unfold slice, clamp_index. rewrite length_app. simpl length.
  replace (0 <? 0)%Z with false by reflexivity.
  destruct (Z.ltb_spec (Z.of_nat (length pre)) 0); [lia|].
  rewrite Z.min_l by lia. rewrite Z.min_l by lia.
  rewrite Z.max_l by lia. rewrite Z.sub_0_r, Nat2Z.id. simpl skipn.
  rewrite firstn_app, Nat.sub_diag, firstn_all. simpl. apply app_nil_r.
Qed.

Lemma slice_after {A} (pre : list A) (c : A) (post : list A) :
  slice (pre ++ c :: post) (Z.of_nat (length pre) + 1) None = post.
Proof.
  unfold slice, clamp_index. rewrite length_app. simpl length.
  destruct (Z.ltb_spec (Z.of_nat (length pre) + 1) 0); [lia|].
  rewrite Z.min_l by lia.
  replace (Z.to_nat (Z.of_nat (length pre) + 1)) with (length pre + 1)%nat by lia.
  replace (pre ++ c :: post) with ((pre ++ [c]) ++ post)
    by (now rewrite <- app_assoc).
  rewrite skipn_app.
  replace (length pre + 1 - length (pre ++ [c]))%nat with 0%nat
    by (rewrite length_app; simpl; lia).
  rewrite skipn_all2 by (rewrite length_app; simpl; lia).
  simpl. apply firstn_all2. lia.
Qed.

(** The first occurrence of a unit that occurs. *)
Lemma first_occurrence (c : code_unit) (s : jsstring) :
  In c s -> exists pre post, s = pre ++ c :: post /\ ~ In c pre.
Proof.
  induction s as [|x s IH]; intros Hin; [easy|].
  destruct (N.eq_dec x c) as [->|Hne].
  - exists [], s. split; [reflexivity | easy].
  - destruct Hin as [E|Hin]; [congruence|].
    destruct (IH Hin) as (pre & post & -> & Hpre).
    exists (x :: pre), post. split; [reflexivity|].
    intros [E|H']; [congruence | now apply Hpre].
Qed.

End StringFacts.

(** ** The payload decoder *)

Section Decoder.

Lemma begins_with_nonempty (s : jsstring) :
  begins_with DATA_PREFIX s -> truthy_str s = true.
Proof. intros [r ->]. reflexivity. Qed.

Lemma decode_no_prefix (s : jsstring) :
  ~ begins_with DATA_PREFIX s -> decodeDataPayload s = Ok s.
Proof.
  intros Hn. unfold decodeDataPayload.
  destruct s as [|c s]; [reflexivity|]. simpl truthy_str. simpl negb.
  destruct (Z.eqb_spec (indexOf (c :: s) DATA_PREFIX) 0) as [E|E]; [|reflexivity].
  apply indexOf_zero in E. contradiction.
Qed.

Lemma decode_no_separator (s : jsstring) :
  begins_with DATA_PREFIX s -> ~ In COMMA_UNIT s -> decodeDataPayload s = Ok s.
Proof.
  intros Hp Hc. unfold decodeDataPayload.
  rewrite (begins_with_nonempty _ Hp).
  apply indexOf_zero in Hp. rewrite Hp.
  unfold indexOf, COMMA. rewrite (indexOf_from_unit_missing _ _ _ Hc). reflexivity.
Qed.

(** On a wrapped payload the decoder is chosen by the search for the
    base64 mark in the metadata. *)
Lemma decode_wrapped (s metadata payload : jsstring) :
  wrapped s metadata payload ->
  decodeDataPayload s =
    if (indexOf metadata BASE64_MARK =? -1)%Z
    then decodeURIComponent payload
    else atob payload.
Proof.
  intros (-> & Hp & Hc).
  change (metadata ++ COMMA ++ payload) with (metadata ++ COMMA_UNIT :: payload).
  set (s := metadata ++ COMMA_UNIT :: payload).
  assert (begins_with DATA_PREFIX s) as Hp'.
  { destruct Hp as [r ->]. exists (r ++ COMMA_UNIT :: payload).
    unfold s. now rewrite <- app_assoc. }
  assert (indexOf s COMMA = Z.of_nat (length metadata)) as Hcomma.
  { unfold indexOf, s. change COMMA with [COMMA_UNIT].
    now rewrite (indexOf_from_unit _ _ payload 0 Hc). }
  unfold decodeDataPayload.
  rewrite (begins_with_nonempty _ Hp').
  apply indexOf_zero in Hp'. rewrite Hp', Hcomma.
  destruct (Z.eqb_spec (Z.of_nat (length metadata)) (-1)) as [E|_]; [lia|].
  unfold s. rewrite slice_before, slice_after.
  now destruct (indexOf metadata BASE64_MARK =? -1)%Z.
Qed.

Lemma base64_mark_found (metadata : jsstring) :
  (indexOf metadata BASE64_MARK =? -1)%Z = false <-> declares_base64 metadata.
Proof.
  unfold declares_base64. split.
  - intros E. apply Z.eqb_neq in E. now apply indexOf_from_found in E.
  - intros H. apply Z.eqb_neq. intros E. now apply indexOf_missing in E.
Qed.

Lemma base64_mark_missing (metadata : jsstring) :
  (indexOf metadata BASE64_MARK =? -1)%Z = true <-> ~ declares_base64 metadata.
Proof.
  rewrite Z.eqb_eq. apply indexOf_missing.
Qed.

(** Before its first comma, a text that begins with the prefix still does. *)
Lemma prefix_before_comma (pre post : jsstring) :
  begins_with DATA_PREFIX (pre ++ COMMA_UNIT :: post) ->
  begins_with DATA_PREFIX pre.
Proof.
  intros H. apply starts_with_begins in H. apply starts_with_begins.
  unfold DATA_PREFIX in *.
  destruct pre as [|a [|b [|c [|d [|e pre]]]]]; cbn [starts_with app] in *;
    repeat match goal with
    | H : (_ && _) = true |- _ => apply andb_true_iff in H; destruct H
    | H : N.eqb _ _ = true |- _ => apply N.eqb_eq in H; try discriminate H; subst
    end; try discriminate; reflexivity.
Qed.

(** Every text is plain, a prefix without separator, or a wrapped payload. *)
Lemma decode_shapes (s : jsstring) :
  ~ begins_with DATA_PREFIX s
  \/ (begins_with DATA_PREFIX s /\ ~ In COMMA_UNIT s)
  \/ exists metadata payload, wrapped s metadata payload.
Proof.
  destruct (starts_with DATA_PREFIX s) eqn:P.
  - apply starts_with_begins in P. right.
    destruct (in_dec N.eq_dec COMMA_UNIT s) as [Hin|Hn]; [right | now left].
    destruct (first_occurrence _ _ Hin) as (pre & post & -> & Hpre).
    exists pre, post. repeat split; [|assumption].
    now apply prefix_before_comma with post.
  - left. intros B. apply starts_with_begins in B. congruence.
Qed.

Lemma atob_raises (s : jsstring) (e : exn) :
  atob s = Throw e -> e = InvalidCharacterError.
Proof.
  unfold atob.
  destruct (length _ mod 4 =? 1)%nat; [congruence|].
  destruct (b64_values _); congruence.
Qed.

Lemma cmap_raises {A B} (f : A -> B) (c : completion A) (e : exn) :
  cmap f c = Throw e -> c = Throw e.
Proof. destruct c; simpl; congruence. Qed.

Lemma uri_tokens_raises (n : nat) : forall (s : jsstring) (e : exn),
  (length s <= n)%nat -> uri_tokens s = Throw e -> e = URIError.
Proof.
  induction n as [|n IH]; intros s e Hlen; destruct s as [|c s]; simpl in *;
    try discriminate; try lia.
  destruct (N.eqb c PERCENT).
  - destruct s as [|h1 [|h2 s]]; try congruence.
    destruct (hex_value h1); [|congruence].
    destruct (hex_value h2); [|congruence].
    intros E. apply cmap_raises in E. apply IH in E; [assumption|].
    simpl in Hlen. lia.
  - intros E. apply cmap_raises in E. apply IH in E; [assumption | lia].
Qed.

Lemma utf8_decode_raises (n : nat) : forall (ts : list uri_token) (e : exn),
  (length ts <= n)%nat -> utf8_decode ts = Throw e -> e = URIError.
Proof.
  induction n as [|n IH]; intros ts e Hlen; destruct ts as [|t ts]; simpl in *;
    try discriminate; try lia.
  assert (forall (f : jsstring -> jsstring) (r : list uri_token), (length r <= n)%nat ->
            cmap f (utf8_decode r) = Throw e -> e = URIError) as K.
  { intros f r Hr E. apply cmap_raises in E. now apply IH in E. }
  destruct t as [c|b].
  - apply K. lia.
  - destruct (N.ltb b 128); [apply K; lia|].
    destruct (between 194 223 b).
    { destruct ts as [|[?|b1] ts]; try congruence.
      destruct (continuation b1); [|congruence]. apply K. simpl in Hlen. lia. }
    destruct (between 224 239 b).
    { destruct ts as [|[?|b1] [|[?|b2] ts]]; try congruence.
      destruct (_ && _); [|congruence]. apply K. simpl in Hlen. lia. }
    destruct (between 240 244 b); [|congruence].
    destruct ts as [|[?|b1] [|[?|b2] [|[?|b3] ts]]]; try congruence.
    destruct (_ && _); [|congruence]. apply K. simpl in Hlen. lia.
Qed.

Lemma decodeURIComponent_raises (s : jsstring) (e : exn) :
  decodeURIComponent s = Throw e -> e = URIError.
Proof.
  unfold decodeURIComponent.
  destruct (uri_tokens s) as [ts|e'] eqn:T; simpl.
  - now apply utf8_decode_raises with (length ts).
  - intros E. injection E as <-. now apply uri_tokens_raises with (length s) s.
Qed.

End Decoder.

Ltac not_begins := let B := fresh in
  intros B; apply starts_with_begins in B; discriminate B.

(** C7. For every input string, the decoder returns it unchanged when it
    does not begin with the wrapper prefix [data:], returns the whole input
    unchanged when it begins with the prefix but holds no comma, applies
    [atob] to the payload segment (what follows the first comma) when the
    metadata segment (what precedes it) holds [;base64], and applies
    [decodeURIComponent] to the payload segment otherwise.  The outcome of
    the two platform decoders, a string or an exception, is the outcome of
    the decoder. *)
Theorem decodeDataPayload_cases :
  (forall s, ~ begins_with DATA_PREFIX s -> decodeDataPayload s = Ok s)
  /\ (forall s, begins_with DATA_PREFIX s -> ~ In COMMA_UNIT s ->
        decodeDataPayload s = Ok s)
  /\ (forall s metadata payload,
        wrapped s metadata payload -> declares_base64 metadata ->
        decodeDataPayload s = atob payload)
  /\ (forall s metadata payload,
        wrapped s metadata payload -> ~ declares_base64 metadata ->
        decodeDataPayload s = decodeURIComponent payload).
Proof.
  repeat split.
  - apply decode_no_prefix.
  - apply decode_no_separator.
  - intros s m p W D. rewrite (decode_wrapped _ _ _ W).
    apply base64_mark_found in D. now rewrite D.
  - intros s m p W D. rewrite (decode_wrapped _ _ _ W).
    apply base64_mark_missing in D. now rewrite D.
Qed.

Lemma decodeDataPayload_cases_witness :
  decodeDataPayload (lit "DATE,SP500") = Ok (lit "DATE,SP500")
  /\ decodeDataPayload (lit "data:text/csv") = Ok (lit "data:text/csv")
  /\ decodeDataPayload (lit "data:text/csv;base64,SGVsbG8=") = Ok (lit "Hello")
  /\ decodeDataPayload (lit "data:text/csv,a%2Cb") = Ok (lit "a,b").
Proof.
  destruct decodeDataPayload_cases as (Plain & NoSep & B64 & Pct).
  split; [|split; [|split]].
  - apply Plain. not_begins.
  - apply NoSep; [now exists (lit "text/csv") | not_in_units].
  - rewrite (B64 _ (lit "data:text/csv;base64") (lit "SGVsbG8=")).
    + reflexivity.
    + split; [reflexivity|]. split; [now exists (lit "text/csv;base64") | not_in_units].
    + now exists (lit "data:text/csv"), [].
  - rewrite (Pct _ (lit "data:text/csv") (lit "a%2Cb")).
    + reflexivity.
    + split; [reflexivity|]. split; [now exists (lit "text/csv") | not_in_units].
    + apply base64_mark_missing. reflexivity.
Defined.

(** C8, as stated: the decoder never raises.  It does: a payload that is
    not percent-encoded text, or not base64 where base64 is declared, makes
    the platform decoder throw, and the decoder has no handler. *)
Lemma decodeDataPayload_never_raises_cex :
  decodeDataPayload (lit "data:,%") = Throw URIError
  /\ decodeDataPayload (lit "data:;base64,!") = Throw InvalidCharacterError
  /\ ~ (forall s, exists r, decodeDataPayload s = Ok r).
Proof.
  split; [reflexivity|]. split; [reflexivity|].
  intros H. destruct (H (lit "data:,%")) as [r E]. discriminate E.
Qed.

(** C8, amended.  The decoder raises exactly on a wrapped payload whose
    payload segment its declared encoding rejects: [atob] when the metadata
    declares base64, [decodeURIComponent] otherwise.  On every other input
    it returns a string, and what it raises is an InvalidCharacterError or
    a URIError. *)
Theorem decodeDataPayload_raises_iff (s : jsstring) :
  (forall e,
     decodeDataPayload s = Throw e <->
     exists metadata payload,
       wrapped s metadata payload
       /\ ((declares_base64 metadata /\ atob payload = Throw e)
           \/ (~ declares_base64 metadata /\ decodeURIComponent payload = Throw e)))
  /\ (forall e, decodeDataPayload s = Throw e ->
        e = InvalidCharacterError \/ e = URIError)
  /\ ((forall metadata payload, ~ wrapped s metadata payload) ->
      decodeDataPayload s = Ok s).
Proof.
  assert (forall e,
     decodeDataPayload s = Throw e <->
     exists metadata payload,
       wrapped s metadata payload
       /\ ((declares_base64 metadata /\ atob payload = Throw e)
           \/ (~ declares_base64 metadata /\ decodeURIComponent payload = Throw e)))
    as Iff.
  { intros e. split.
    - intros E. destruct (decode_shapes s) as [P|[[P C]|(m & p & W)]].
      + rewrite (decode_no_prefix _ P) in E. discriminate E.
      + rewrite (decode_no_separator _ P C) in E. discriminate E.
      + exists m, p. split; [exact W|].
        rewrite (decode_wrapped _ _ _ W) in E.
        destruct (indexOf m BASE64_MARK =? -1)%Z eqn:B.
        * right. split; [now apply base64_mark_missing | exact E].
        * left. split; [now apply base64_mark_found | exact E].
    - intros (m & p & W & [[D E]|[D E]]); rewrite (decode_wrapped _ _ _ W).
      + apply base64_mark_found in D. now rewrite D.
      + apply base64_mark_missing in D. now rewrite D. }
  split; [exact Iff|]. split.
  - intros e E. apply Iff in E. destruct E as (m & p & _ & [[_ E]|[_ E]]).
    + left. now apply atob_raises with p.
    + right. now apply decodeURIComponent_raises with p.
  - intros NW. destruct (decode_shapes s) as [P|[[P C]|(m & p & W)]].
    + now apply decode_no_prefix.
    + now apply decode_no_separator.
    + exfalso. now apply (NW m p).
Qed.

Lemma decodeDataPayload_raises_iff_witness :
  decodeDataPayload (lit "DATE,SP500") = Ok (lit "DATE,SP500").
Proof.
  destruct (decodeDataPayload_raises_iff (lit "DATE,SP500")) as (_ & _ & Plain).
  apply Plain. intros m p (E & [r ->] & _). discriminate E.
Defined.

(** ** The aggregator *)

Section Aggregator.

Lemma latestPair_last_two (pts : list Point) (a b : Point) :
  latestPair (pts ++ [a; b]) = {| latest := Some b; previous := Some a |}.
Proof.
  unfold latestPair. rewrite length_app. simpl length.
  replace (length pts + 2 =? 0)%nat with false
    by (symmetry; apply Nat.eqb_neq; lia).
  replace (1 <? length pts + 2)%nat with true
    by (symmetry; apply Nat.ltb_lt; lia).
  rewrite !nth_error_app2 by lia.
  replace (length pts + 2 - 1 - length pts)%nat with 1%nat by lia.
  replace (length pts + 2 - 2 - length pts)%nat with 0%nat by lia.
  reflexivity.
Qed.

(** C6. [latestPair] selects by position only: the empty series gives no
    point at all, a series of one point gives it as latest and no previous
    point, a longer series gives its last element as latest and the one
    before it as previous, whatever the values are: renaming the points of
    a series renames the selected pair and selects the same positions. *)
Theorem latestPair_by_position :
  latestPair [] = {| latest := None; previous := None |}
  /\ (forall p, latestPair [p] = {| latest := Some p; previous := None |})
  /\ (forall pts a b,
        latestPair (pts ++ [a; b]) = {| latest := Some b; previous := Some a |})
  /\ (forall (f : Point -> Point) pts,
        latestPair (map f pts) =
          {| latest := option_map f (latest (latestPair pts));
             previous := option_map f (previous (latestPair pts)) |}).
Proof.
  split; [reflexivity|]. split; [reflexivity|]. split.
  - apply latestPair_last_two.
  - intros f pts. unfold latestPair. rewrite length_map.
    destruct (length pts =? 0)%nat; [reflexivity|]. simpl.
    rewrite !nth_error_map.
    now destruct (1 <? length pts)%nat.
Qed.

Lemma fge_zero_cases (p : float) :
  fge p pos_zero =
    match p with
    | S754_nan => false
    | S754_zero _ => true
    | S754_infinity s | S754_finite s _ _ => negb s
    end.
Proof. now destruct p as [s|s| |s m e]; try destruct s. Qed.

Lemma nonfinite_times_hundred (x : float) :
  isFinite x = false -> isFinite (fmul x hundred) = false.
Proof. now destruct x as [s|s| |s m e]. Qed.

Lemma percentChange_of_zero (current : float) (s : bool) :
  exists p, percentChange current (Some (S754_zero s)) = Some p
            /\ isFinite p = false.
Proof.
  eexists. split; [reflexivity|]. apply nonfinite_times_hundred.
  now destruct current as [s'|s'| |s' m e]; destruct s; try destruct s'.
Qed.

(** C5.  The direction of a percent that is not finite, as the pass over
    the FRED series computes it.  From a previous value of zero to five the
    percent is [+Infinity] and the direction is [up], not null; from zero
    to zero the percent is NaN and the direction is [down], not null.  The
    span of a series that goes from 0 to 5 gets the class [tick--up] next
    to a text that [fmtTicker], which tests [Number.isFinite(pct)], writes
    without percent, as it does for no percent at all. *)
Lemma direction_zero_previous :
  percentChange (of_Z 5) (Some (of_Z 0)) = Some (S754_infinity false)
  /\ isFinite (S754_infinity false) = false
  /\ direction (Some (S754_infinity false)) = Some up
  /\ percentChange (of_Z 0) (Some (of_Z 0)) = Some NaN
  /\ isFinite NaN = false
  /\ direction (Some NaN) = Some down
  /\ @renderResult Scenario.host [Scenario.sp500_span]
       (Fulfilled (Scenario.sp500, parseFredCsv Scenario.zero_csv))
     = [ {| data_ticker := lit "SP500";
            textContent := lit "S&P 500 #";
            classList := [lit "tick"; lit "tick--up"] |} ]
  /\ @fmtTicker Scenario.host (lit "S&P 500") (of_Z 5) 0 None
       (Some (S754_infinity false))
     = @fmtTicker Scenario.host (lit "S&P 500") (of_Z 5) 0 None None.
Proof. repeat split. Qed.

Context `{Host}.

Lemma fmtTicker_nonfinite lbl v dec sfx (p : float) :
  isFinite p = false ->
  fmtTicker lbl v dec sfx (Some p) = fmtTicker lbl v dec sfx None.
Proof. intros F. unfold fmtTicker. now rewrite F. Qed.

(** C4. The percent change is null without a previous value and
    [(current - previous) / abs(previous) * 100] with one, in binary64
    arithmetic; from 100 to 110 it is 10, from 100 to 90 it is -10; and
    from a previous value of zero, of either sign, it is an infinity or
    NaN, for which [fmtTicker] writes the same text as for no percent. *)
Theorem percentChange_spec :
  (forall current, percentChange current None = None)
  /\ (forall current prev,
        percentChange current (Some prev) =
          Some (fmul (fdiv (fsub current prev) (fabs prev)) (of_Z 100)))
  /\ percentChange (of_Z 110) (Some (of_Z 100)) = Some (of_Z 10)
  /\ percentChange (of_Z 90) (Some (of_Z 100)) = Some (of_Z (-10))
  /\ (forall current s,
        exists p,
          percentChange current (Some (S754_zero s)) = Some p
          /\ isFinite p = false
          /\ forall lbl v dec sfx,
               fmtTicker lbl v dec sfx (Some p) = fmtTicker lbl v dec sfx None).
Proof.
  split; [reflexivity|]. split; [reflexivity|].
  split; [vm_compute; reflexivity|]. split; [vm_compute; reflexivity|].
  intros current s. destruct (percentChange_of_zero current s) as (p & E & F).
  exists p. split; [exact E|]. split; [exact F|].
  intros. now apply fmtTicker_nonfinite.
Qed.

(** The expression [pct === null ? null : (pct >= 0 ? 'up' : 'down')],
    case by case, and where the pass over a series hands its value to
    [updateSpans]. *)
Lemma direction_cases :
  (forall pct, direction pct = None <-> pct = None)
  /\ (forall p,
        direction (Some p) =
          Some match p with
               | S754_nan => down
               | S754_zero _ => up
               | S754_infinity s | S754_finite s _ _ => if s then down else up
               end)
  /\ (forall doc cfg pts a b,
        let pct := percentChange (value b) (Some (value a)) in
        renderResult doc (Fulfilled (cfg, pts ++ [a; b])) =
          updateSpans (attr cfg)
            (fmtTicker (label cfg) (value b) (decimals cfg) (suffix cfg) pct)
            (direction pct) doc).
Proof.
  split; [|split].
  - intros [p|]; simpl; split; congruence.
  - intros p. unfold direction. rewrite fge_zero_cases.
    now destruct p as [s|s| |s m e]; try destruct s.
  - intros doc cfg pts a b. simpl. now rewrite latestPair_last_two.
Qed.

End Aggregator.

(** ** The delimited series parser *)

Section Parser.

Lemma not_ends_with_cr_tail (c : code_unit) (l : jsstring) :
  ~ ends_with_cr (c :: l) -> ~ ends_with_cr l.
Proof. intros Hn [l' ->]. apply Hn. now exists (c :: l'). Qed.

Lemma starts_with_lf_false (l t : jsstring) :
  ~ In LF l -> l <> [] -> starts_with [LF] (l ++ t) = false.
Proof.
  intros Hin Hne. destruct l as [|x l]; [congruence|]. cbn [app starts_with].
  destruct (N.eqb_spec LF x) as [E|_]; [|reflexivity].
  exfalso. apply Hin. now left.
Qed.

Lemma split_lines_single (l : jsstring) :
  ~ In LF l -> split_lines l = [l].
Proof.
  induction l as [|c l IH]; intros Hin; [reflexivity|].
  cbn [split_lines]. rewrite IH by (intros K; apply Hin; now right).
  destruct (N.eqb_spec c LF) as [E|_]; [exfalso; apply Hin; now left|].
  destruct l as [|x l].
  - cbn [starts_with]. now rewrite andb_false_r.
  - replace (starts_with [LF] (x :: l)) with false; [now rewrite andb_false_r|].
    symmetry. apply (starts_with_lf_false (x :: l) []); [|discriminate].
    intros K. apply Hin. now right.
Qed.

Lemma split_lines_lf (l t : jsstring) :
  ~ In LF l -> ~ ends_with_cr l ->
  split_lines (l ++ LF :: t) = l :: split_lines t.
Proof.
  induction l as [|c l IH]; intros Hin Hcr.
  - cbn [app split_lines]. now rewrite N.eqb_refl.
  - cbn [app split_lines].
    rewrite IH;
      [|intros K; apply Hin; now right | now apply not_ends_with_cr_tail with c].
    destruct (N.eqb_spec c LF) as [E|_]; [exfalso; apply Hin; now left|].
    destruct l as [|x l].
    + destruct (N.eqb_spec c CR) as [->|_]; [|reflexivity].
      exfalso. apply Hcr. now exists [].
    + replace (starts_with [LF] ((x :: l) ++ LF :: t)) with false;
        [now rewrite andb_false_r|].
      symmetry. apply starts_with_lf_false; [|discriminate].
      intros K. apply Hin. now right.
Qed.

Lemma split_lines_crlf (l t : jsstring) :
  ~ In LF l ->
  split_lines (l ++ CR :: LF :: t) = l :: split_lines t.
Proof.
  induction l as [|c l IH]; intros Hin.
  - cbn [app split_lines]. rewrite N.eqb_refl. reflexivity.
  - cbn [app split_lines].
    rewrite IH by (intros K; apply Hin; now right).
    destruct (N.eqb_spec c LF) as [E|_]; [exfalso; apply Hin; now left|].
    destruct l as [|x l].
    + cbn [app starts_with]. replace (N.eqb LF CR) with false by reflexivity.
      now rewrite andb_false_r.
    + replace (starts_with [LF] ((x :: l) ++ CR :: LF :: t)) with false;
        [now rewrite andb_false_r|].
      symmetry. apply starts_with_lf_false; [|discriminate].
      intros K. apply Hin. now right.
Qed.



(** Splitting a text gives back its lines. *)
Lemma split_lines_join (rest : list (eol * jsstring)) : forall first,
  lines_ok first rest ->
  split_lines (join_lines first rest) = first :: map snd rest.
Proof.
  induction rest as [|[e l] rest IH]; intros first [Hin Hrest]; cbn [join_lines map snd].
  - now apply split_lines_single.
  - destruct Hrest as [Hcr Hok]. rewrite <- (IH l Hok).
    destruct e; cbn [eol_units app].
    + apply split_lines_lf; [assumption | now apply Hcr].
    + now apply split_lines_crlf.
Qed.









Lemma empty_lines_dropped (ls : list jsstring) :
  filter_Boolean (map parseLine (filter truthy_str ls))
  = filter_Boolean (map parseLine ls).
Proof.
  induction ls as [|l ls IH]; [reflexivity|].
  destruct l as [|c l]; cbn [filter truthy_str map].
  - exact IH.
  - cbn [filter_Boolean]. now rewrite IH.
Qed.

Lemma slice_tail {A} (h : A) (ls : list A) : slice (h :: ls) 1 None = ls.
Proof.
  unfold slice, clamp_index. cbn [length].
  replace (1 <? 0)%Z with false by reflexivity.
  rewrite Z.min_l by lia. rewrite Z.max_l by lia.
  replace (Z.to_nat 1) with 1%nat by reflexivity. cbn [skipn].
  apply firstn_all2. lia.
Qed.

(** The parser on a text with a non-empty first line: the points of the
    lines after it. *)
Lemma parseFredCsv_join (h : jsstring) (rest : list (eol * jsstring)) :
  h <> [] -> lines_ok h rest ->
  parseFredCsv (join_lines h rest) = filter_Boolean (map parseLine (map snd rest)).
Proof.
  intros Hh Hok. unfold parseFredCsv. rewrite (split_lines_join _ _ Hok).
  destruct h as [|c h]; [congruence|]. cbn [filter truthy_str].
  rewrite <- (empty_lines_dropped (map snd rest)).
  destruct (filter truthy_str (map snd rest)) as [|l ls] eqn:E; [reflexivity|].
  cbn [length Nat.ltb Nat.leb]. now rewrite slice_tail.
Qed.

End Parser.

(** ** The relay fallback chain *)

Section FetchChain.

Context `{Host}.

Lemma fetchViaCodetabs_run (u q : jsstring) (w : World) :
  encodeURIComponent u = Ok q ->
  fetchViaCodetabs u w =
    (cbind (fetch w (codetabs_request q)) (fun r =>
       if ok r then text r else Throw (Error (CodetabsHTTP (status r)))),
     [codetabs_request q]).
Proof.
  intros E. unfold fetchViaCodetabs, bind, lift, await_fetch. rewrite E.
  fold (codetabs_request q).
  destruct (fetch w (codetabs_request q)) as [r|e]; [|reflexivity].
  cbn [cbind]. now destruct (ok r).
Qed.

Lemma fetchViaAllOriginsRaw_run (u q : jsstring) (w : World) :
  encodeURIComponent u = Ok q ->
  fetchViaAllOriginsRaw u w =
    (cbind (fetch w (allorigins_raw_request q)) (fun r =>
       if ok r then text r else Throw (Error (AllOriginsRawHTTP (status r)))),
     [allorigins_raw_request q]).
Proof.
  intros E. unfold fetchViaAllOriginsRaw, bind, lift, await_fetch. rewrite E.
  fold (allorigins_raw_request q).
  destruct (fetch w (allorigins_raw_request q)) as [r|e]; [|reflexivity].
  cbn [cbind]. now destruct (ok r).
Qed.

Lemma fetchViaAllOriginsGet_run (u q : jsstring) (w : World) :
  encodeURIComponent u = Ok q ->
  fetchViaAllOriginsGet u w =
    (cbind (fetch w (allorigins_get_request q)) (fun r =>
       if ok r then
         cbind (cbind (text r) JSON_allorigins) (fun p =>
           cbind (decodeDataPayload (contents_or_empty p)) (fun d =>
             if truthy_str d then Ok d else Throw (Error AllOriginsGetEmpty)))
       else Throw (Error (AllOriginsGetHTTP (status r)))),
     [allorigins_get_request q]).
Proof.
  intros E. unfold fetchViaAllOriginsGet, bind, lift, await_fetch. rewrite E.
  fold (allorigins_get_request q).
  destruct (fetch w (allorigins_get_request q)) as [r|e]; [|reflexivity].
  cbn [cbind]. destruct (ok r); [|reflexivity]. cbn [negb].
  destruct (cbind (text r) JSON_allorigins) as [p|e]; [|reflexivity].
  cbn [cbind].
  destruct (decodeDataPayload (contents_or_empty p)) as [d|e]; [|reflexivity].
  now destruct d.
Qed.

(** A target that cannot be encoded fails each path before any request. *)
Lemma unencodable_run (u : jsstring) (e : exn) (w : World) :
  encodeURIComponent u = Throw e ->
  fetchViaCodetabs u w = (Throw e, [])
  /\ fetchViaAllOriginsGet u w = (Throw e, [])
  /\ fetchViaAllOriginsRaw u w = (Throw e, []).
Proof.
  intros E.
  unfold fetchViaCodetabs, fetchViaAllOriginsGet, fetchViaAllOriginsRaw, bind, lift.
  now rewrite E.
Qed.

Lemma fetchText_run (u : jsstring) (w : World) :
  fetchText u w =
    match fetchViaCodetabs u w with
    | (Ok t, t1) => (Ok t, t1)
    | (Throw _, t1) =>
        match fetchViaAllOriginsGet u w with
        | (Ok t, t2) => (Ok t, t1 ++ t2)
        | (Throw _, t2) =>
            (fst (fetchViaAllOriginsRaw u w),
             t1 ++ t2 ++ snd (fetchViaAllOriginsRaw u w))
        end
    end.
Proof.
  unfold fetchText, try_catch.
  destruct (fetchViaCodetabs u w) as [[t|e] t1]; [reflexivity|].
  destruct (fetchViaAllOriginsGet u w) as [[t|e'] t2]; [reflexivity|].
  now destruct (fetchViaAllOriginsRaw u w).
Qed.

(** C1. For every target and every state of the network, [fetchText]
    tries the codetabs relay, then the wrapped mode of allorigins, then its
    raw mode, in this order and each only once the one before has failed:
    the requests it issues are those of the first path, followed by those
    of the second when the first failed, followed by those of the third
    when the second failed too.  It returns the text of the first path
    that succeeds; it fails exactly when the three paths fail, and then
    with the error of the raw path.  In wrapped mode a payload that decodes
    to the empty string is a failure. *)
Theorem fetchText_chain (u : jsstring) (w : World) :
  let a1 := fetchViaCodetabs u w in
  let a2 := fetchViaAllOriginsGet u w in
  let a3 := fetchViaAllOriginsRaw u w in
  (* the first success is the result *)
  (forall t, fst a1 = Ok t -> fetchText u w = (Ok t, snd a1))
  /\ (forall t, failed (fst a1) -> fst a2 = Ok t ->
        fetchText u w = (Ok t, snd a1 ++ snd a2))
  /\ (failed (fst a1) -> failed (fst a2) ->
        fetchText u w = (fst a3, snd a1 ++ snd a2 ++ snd a3))
  (* failure: exactly when the three paths fail, with the last error *)
  /\ (forall e, fst (fetchText u w) = Throw e <->
        failed (fst a1) /\ failed (fst a2) /\ fst a3 = Throw e)
  (* the requests of the paths, and the empty payload *)
  /\ (forall q, encodeURIComponent u = Ok q ->
        snd a1 = [codetabs_request q]
        /\ snd a2 = [allorigins_get_request q]
        /\ snd a3 = [allorigins_raw_request q]
        /\ forall r p,
             fetch w (allorigins_get_request q) = Ok r -> ok r = true ->
             cbind (text r) JSON_allorigins = Ok p ->
             decodeDataPayload (contents_or_empty p) = Ok [] ->
             fst a2 = Throw (Error AllOriginsGetEmpty)).
Proof.
  intros a1 a2 a3. rewrite fetchText_run. fold a1 a2 a3.
  split; [|split; [|split; [|split]]].
  - intros t E. destruct a1 as [r1 t1]. simpl in E. now subst r1.
  - intros t [e1 E1] E2. destruct a1 as [r1 t1], a2 as [r2 t2]. simpl in *.
    now subst r1 r2.
  - intros [e1 E1] [e2 E2]. destruct a1 as [r1 t1], a2 as [r2 t2]. simpl in *.
    now subst r1 r2.
  - intros e. destruct a1 as [[t|e1] t1]; simpl.
    { split; [discriminate|]. intros [[x K] _]. discriminate K. }
    destruct a2 as [[t|e2] t2]; simpl.
    { split; [discriminate|]. intros (_ & [x K] & _). discriminate K. }
    split.
    + intros E. repeat split; try (now eexists). exact E.
    + now intros (_ & _ & E).
  - intros q E. subst a1 a2 a3.
    rewrite (fetchViaCodetabs_run _ _ _ E), (fetchViaAllOriginsGet_run _ _ _ E),
      (fetchViaAllOriginsRaw_run _ _ _ E).
    repeat split. intros r p Hr Hok Hp Hd. cbn [fst].
    rewrite Hr. cbn [cbind]. rewrite Hok, Hp. cbn [cbind]. now rewrite Hd.
Qed.

(** [fetchFred] after [fetchText]: the points, or [NoData] for none. *)
Lemma fetchFred_run (id q : jsstring) (w : World) :
  encodeURIComponent id = Ok q ->
  fetchFred id w =
    match fetchText (FRED_CSV ++ q) w with
    | (Ok csv, t) =>
        (match parseFredCsv csv with
         | [] => Throw (Error NoData)
         | _ :: _ => Ok (parseFredCsv csv)
         end, t)
    | (Throw e, t) => (Throw e, t)
    end.
Proof.
  intros E. unfold fetchFred, bind, lift. rewrite E.
  destruct (fetchText (FRED_CSV ++ q) w) as [[csv|e] t]; [|reflexivity].
  destruct (parseFredCsv csv); cbn; now rewrite app_nil_r.
Qed.

End FetchChain.

(** ** The render pass *)

Section RenderPass.

Context `{Host}.

Lemma str_eqb_eq (a b : jsstring) : str_eqb a b = true <-> a = b.
Proof.
  revert b. induction a as [|x a IH]; intros [|y b]; simpl; split;
    try congruence; try discriminate.
  - intros E. apply andb_true_iff in E. destruct E as [E1 E2].
    apply N.eqb_eq in E1. apply IH in E2. congruence.
  - intros E. injection E as -> ->. rewrite N.eqb_refl.
    now apply IH.
Qed.

Lemma str_eqb_neq (a b : jsstring) : str_eqb a b = false <-> a <> b.
Proof.
  rewrite <- str_eqb_eq. now destruct (str_eqb a b).
Qed.

Lemma rendered_data_ticker cfg pts sp :
  data_ticker (rendered cfg pts sp) = data_ticker sp.
Proof. unfold rendered. now destruct (latest (latestPair pts)). Qed.

Lemma render_span_data_ticker r sp :
  data_ticker (render_span r sp) = data_ticker sp.
Proof.
  destruct r as [[cfg pts]|e]; [|reflexivity]. simpl.
  destruct (str_eqb _ _); [apply rendered_data_ticker | reflexivity].
Qed.

Lemma renderResult_map (doc : document) r :
  renderResult doc r = map (render_span r) doc.
Proof.
  destruct r as [[cfg pts]|e]; cbn [renderResult].
  - destruct (latest (latestPair pts)) as [l|] eqn:L.
    + unfold updateSpans. apply map_ext. intros sp.
      unfold render_span, rendered. now rewrite L.
    + rewrite <- (map_id doc) at 1. apply map_ext. intros sp.
      unfold render_span, rendered. rewrite L. now destruct (str_eqb _ _).
  - symmetry. apply map_id.
Qed.

Lemma fold_renderResult rs : forall doc : document,
  fold_left renderResult rs doc =
  map (fun sp => fold_left (fun sp r => render_span r sp) rs sp) doc.
Proof.
  induction rs as [|r rs IH]; intros doc; simpl.
  - symmetry. apply map_id.
  - now rewrite IH, renderResult_map, map_map.
Qed.

(** The settled results of the tickers, in their order. *)
Lemma allSettled_tickers (tickers : list TickerSpec) (w : World) :
  fst (allSettled (map fetchTicker tickers) w) =
  Ok (map (fun cfg => settle (cmap (pair cfg) (outcome w cfg))) tickers).
Proof.
  induction tickers as [|cfg tickers IH]; [reflexivity|].
  cbn [map allSettled].
  destruct (allSettled (map fetchTicker tickers) w) as [rs t'].
  simpl in IH. subst rs.
  unfold fetchTicker at 1, bind, outcome.
  destruct (fetchFred (fred cfg) w) as [[pts|e] t]; reflexivity.
Qed.

Lemma loadFred_run (tickers : list TickerSpec) (doc : document) (w : World) :
  fst (loadFred tickers doc w) =
  Ok (map (fun sp =>
             fold_left (fun sp r => render_span r sp)
               (map (fun cfg => settle (cmap (pair cfg) (outcome w cfg))) tickers) sp)
          doc).
Proof.
  unfold loadFred, bind.
  pose proof (allSettled_tickers tickers w) as E.
  destruct (allSettled (map fetchTicker tickers) w) as [rs t]. simpl in E.
  subst rs. cbn. now rewrite fold_renderResult.
Qed.

(** Tickers bound to other attributes leave a span as it is. *)
Lemma untouched_by_others (w : World) (tickers : list TickerSpec) (sp : Span) :
  ~ In (data_ticker sp) (map attr tickers) ->
  fold_left (fun sp r => render_span r sp)
    (map (fun cfg => settle (cmap (pair cfg) (outcome w cfg))) tickers) sp = sp.
Proof.
  revert sp. induction tickers as [|c tickers IH]; intros sp Hn; [reflexivity|].
  cbn [map fold_left].
  assert (render_span (settle (cmap (pair c) (outcome w c))) sp = sp) as ->.
  { destruct (outcome w c) as [pts|e]; [|reflexivity]. simpl.
    replace (str_eqb (data_ticker sp) (attr c)) with false; [reflexivity|].
    symmetry. apply str_eqb_neq. intros E. apply Hn. now left. }
  apply IH. intros K. apply Hn. now right.
Qed.

(** The spans of a ticker end as its own outcome leaves them, whatever the
    outcomes of the other tickers. *)
Lemma own_outcome_only (w : World) (tickers : list TickerSpec) :
  NoDup (map attr tickers) ->
  forall cfg sp, In cfg tickers -> data_ticker sp = attr cfg ->
  fold_left (fun sp r => render_span r sp)
    (map (fun cfg => settle (cmap (pair cfg) (outcome w cfg))) tickers) sp =
  match outcome w cfg with
  | Ok pts => rendered cfg pts sp
  | Throw _ => sp
  end.
Proof.
  induction tickers as [|c tickers IH]; intros Hnd cfg sp Hin Hsp; [easy|].
  cbn [map] in Hnd. inversion Hnd as [|a l Hc Hnd']. subst a l.
  cbn [map fold_left]. destruct Hin as [->|Hin].
  - assert (render_span (settle (cmap (pair cfg) (outcome w cfg))) sp =
            match outcome w cfg with Ok pts => rendered cfg pts sp | Throw _ => sp end)
      as ->.
    { destruct (outcome w cfg) as [pts|e]; [|reflexivity]. simpl.
      replace (str_eqb (data_ticker sp) (attr cfg)) with true; [reflexivity|].
      symmetry. now apply str_eqb_eq. }
    apply untouched_by_others.
    destruct (outcome w cfg); [rewrite rendered_data_ticker|]; now rewrite Hsp.
  - assert (render_span (settle (cmap (pair c) (outcome w c))) sp = sp) as ->.
    { destruct (outcome w c) as [pts|e]; [|reflexivity]. simpl.
      replace (str_eqb (data_ticker sp) (attr c)) with false; [reflexivity|].
      symmetry. apply str_eqb_neq. rewrite Hsp. intros E. apply Hc.
      rewrite <- E. now apply in_map. }
    now apply IH.
Qed.

Lemma updateSpans_other (a t : jsstring) d (doc : document) i sp :
  data_ticker sp <> a -> nth_error doc i = Some sp ->
  nth_error (updateSpans a t d doc) i = Some sp.
Proof.
  intros Hne E. unfold updateSpans. rewrite nth_error_map, E. simpl.
  apply str_eqb_neq in Hne. now rewrite Hne.
Qed.

Lemma updateSpans_length (a t : jsstring) d (doc : document) :
  length (updateSpans a t d doc) = length doc.
Proof. apply length_map. Qed.

(** The BTC step never fails, and writes only to the spans of BTC. *)
Lemma loadBtc_run (doc : document) (w : World) :
  exists doc', fst (loadBtc doc w) = Ok doc'
    /\ length doc' = length doc
    /\ forall i sp, data_ticker sp <> BTC -> nth_error doc i = Some sp ->
                    nth_error doc' i = Some sp.
Proof.
  unfold loadBtc, try_catch, bind, await_fetch, lift, ret.
  destruct (fetch w _) as [resp|e]; [|now exists doc].
  destruct (ok resp); [|now exists doc].
  destruct (cbind (text resp) JSON_coingecko) as [d|e]; [|now exists doc].
  eexists. split; [reflexivity|]. split; [apply updateSpans_length|].
  intros i sp Hne E. now apply updateSpans_other.
Qed.

(** The DJIA step never fails, and writes only to the spans of DJIA. *)
Lemma loadDjia_run (doc : document) (w : World) :
  exists doc', fst (loadDjia doc w) = Ok doc'
    /\ length doc' = length doc
    /\ forall i sp, data_ticker sp <> DJIA -> nth_error doc i = Some sp ->
                    nth_error doc' i = Some sp.
Proof.
  unfold loadDjia, try_catch, bind, lift, ret.
  destruct (fetchText YAHOO_DJI w) as [[raw|e] t]; [|now exists doc].
  destruct (JSON_chart raw) as [data|e]; [|now exists doc].
  eexists. split; [reflexivity|]. split; [apply updateSpans_length|].
  intros i sp Hne E. now apply updateSpans_other.
Qed.

(** The pass over any list of tickers with distinct attributes. *)
Lemma loadTickerWith_isolated (tickers : list TickerSpec) (doc : document) (w : World) :
  NoDup (map attr tickers) ->
  ~ In BTC (map attr tickers) -> ~ In DJIA (map attr tickers) ->
  exists doc',
    fst (loadTickerWith tickers doc w) = Ok doc'
    /\ length doc' = length doc
    /\ forall cfg i sp,
         In cfg tickers -> nth_error doc i = Some sp -> data_ticker sp = attr cfg ->
         nth_error doc' i =
           Some match outcome w cfg with
                | Ok pts => rendered cfg pts sp
                | Throw _ => sp
                end.
Proof.
  intros Hnd Hbtc Hdjia.
  pose proof (loadFred_run tickers doc w) as E1.
  unfold loadTickerWith, bind.
  destruct (loadFred tickers doc w) as [r1 t1]. simpl in E1. subst r1.
  set (doc1 := map _ doc).
  destruct (loadBtc_run doc1 w) as (doc2 & E2 & L2 & K2).
  destruct (loadBtc doc1 w) as [r2 t2]. simpl in E2. subst r2.
  destruct (loadDjia_run doc2 w) as (doc3 & E3 & L3 & K3).
  destruct (loadDjia doc2 w) as [r3 t3]. simpl in E3. subst r3.
  exists doc3. split; [reflexivity|]. split.
  - rewrite L3, L2. apply length_map.
  - intros cfg i sp Hin Hi Hsp.
    assert (In (attr cfg) (map attr tickers)) as Hattr by now apply in_map.
    assert (data_ticker match outcome w cfg with
                        | Ok pts => rendered cfg pts sp
                        | Throw _ => sp
                        end = attr cfg) as Hdt.
    { destruct (outcome w cfg); [rewrite rendered_data_ticker|]; exact Hsp. }
    apply K3; [rewrite Hdt; intros K; apply Hdjia; now rewrite <- K|].
    apply K2; [rewrite Hdt; intros K; apply Hbtc; now rewrite <- K|].
    unfold doc1. rewrite nth_error_map, Hi. simpl. f_equal.
    now apply own_outcome_only.
Qed.

End RenderPass.

(** ** The series and the pass *)

Section Series.

(** What [Number] and [Number.isFinite] make of a second field: a field
    left blank is read as 0 and passes the test; a lone dot and a word do
    not; a line without a comma has no second field. *)
Example blank_value_reads_as_zero :
  parseLine (lit "2024-01-05,") =
    Some {| date := lit "2024-01-05"; value := pos_zero |}
  /\ parseLine (lit "2024-01-05,.") = None
  /\ parseLine (lit "2024-01-05,n/a") = None
  /\ parseLine (lit "2024-01-05") = None.
Proof. repeat split. Qed.




End Series.

Lemma fetchText_chain_witness :
  @fetchText Scenario.host Scenario.target Scenario.world
  = (Ok Scenario.csv,
     [ codetabs_request Scenario.encoded;
       allorigins_get_request Scenario.encoded;
       allorigins_raw_request Scenario.encoded ])
  /\ fst (@fetchViaAllOriginsGet Scenario.host Scenario.target Scenario.world)
     = Throw (Error AllOriginsGetEmpty).
Proof.
  destruct (@fetchText_chain Scenario.host Scenario.target Scenario.world)
    as (_ & _ & Third & _ & Requests).
  split.
  - rewrite Third; [reflexivity | now eexists | now eexists].
  - destruct (Requests Scenario.encoded eq_refl) as (_ & _ & _ & Empty).
    apply (Empty {| status := 200; text := Ok (lit "{}") |}
                 {| contents := Some (lit "data:text/plain;base64,") |});
      reflexivity.
Defined.

Section Isolation.

Context `{Host}.

Lemma fredTickers_distinct :
  NoDup (map attr fredTickers)
  /\ ~ In BTC (map attr fredTickers)
  /\ ~ In DJIA (map attr fredTickers).
Proof.
  split; [|split; not_in_units].
  repeat (apply NoDup_cons; [not_in_units|]). apply NoDup_nil.
Qed.

(** A series that [fetchFred] returns has a latest point. *)
Lemma outcome_has_latest (w : World) (cfg : TickerSpec) (pts : list Point) :
  outcome w cfg = Ok pts -> exists l, latest (latestPair pts) = Some l.
Proof.
  unfold outcome. intros E.
  assert (pts <> []) as Hne.
  { destruct (encodeURIComponent (fred cfg)) as [q|e] eqn:Q.
    - rewrite (fetchFred_run _ _ _ Q) in E.
      destruct (fetchText (FRED_CSV ++ q) w) as [[csv|e] t]; [|discriminate E].
      simpl in E. destruct (parseFredCsv csv); [discriminate E|].
      injection E as <-. discriminate.
    - unfold fetchFred, bind, lift in E. rewrite Q in E. discriminate E. }
  destruct pts as [|p pts] using rev_ind; [congruence|].
  exists p. unfold latestPair. rewrite length_app. simpl length.
  replace (length pts + 1 =? 0)%nat with false
    by (symmetry; apply Nat.eqb_neq; lia).
  cbn [latest]. rewrite nth_error_app2 by lia.
  now replace (length pts + 1 - 1 - length pts)%nat with 0%nat by lia.
Qed.

(** C2. In every run of [loadTicker], whatever the network does: when the
    pipeline of a configured ticker fails, the pass still completes, every
    span bound to that ticker is afterwards exactly what it was before
    (text and classes), and every span bound to a configured ticker whose
    pipeline succeeded carries the text and the direction class of that
    ticker's own series. *)
Theorem loadTicker_isolated (w : World) (doc : document) (bad : TickerSpec) :
  In bad fredTickers -> failed (outcome w bad) ->
  exists doc',
    fst (loadTicker doc w) = Ok doc'
    /\ length doc' = length doc
    /\ (forall i sp,
          nth_error doc i = Some sp -> data_ticker sp = attr bad ->
          nth_error doc' i = Some sp)
    /\ (forall good pts i sp,
          In good fredTickers -> outcome w good = Ok pts ->
          nth_error doc i = Some sp -> data_ticker sp = attr good ->
          exists l,
            latest (latestPair pts) = Some l
            /\ let pct := percentChange (value l)
                            (option_map value (previous (latestPair pts))) in
               nth_error doc' i =
                 Some (updateSpan
                         (fmtTicker (label good) (value l) (decimals good)
                                    (suffix good) pct)
                         (direction pct) sp)).
Proof.
  intros Hbad [e Hfail].
  destruct fredTickers_distinct as (Hnd & Hbtc & Hdjia).
  destruct (loadTickerWith_isolated fredTickers doc w Hnd Hbtc Hdjia)
    as (doc' & E & L & K).
  exists doc'. split; [exact E|]. split; [exact L|]. split.
  - intros i sp Hi Hsp. rewrite (K bad i sp Hbad Hi Hsp). now rewrite Hfail.
  - intros good pts i sp Hgood Hok Hi Hsp.
    destruct (outcome_has_latest _ _ _ Hok) as [l Hl].
    exists l. split; [exact Hl|]. cbv zeta.
    rewrite (K good i sp Hgood Hi Hsp), Hok. unfold rendered. now rewrite Hl.
Qed.

End Isolation.

Lemma loadTicker_isolated_witness :
  exists doc',
    fst (@loadTicker Scenario.host Scenario.page Scenario.world) = Ok doc'
    /\ nth_error doc' 1 = Some Scenario.nasdaq_span
    /\ nth_error doc' 0 =
         Some {| data_ticker := lit "SP500";
                 textContent := lit "S&P 500 # " ++ GLYPH_DOWN ++ lit "#%";
                 classList := [lit "tick"; lit "tick--down"] |}.
Proof.
  assert (In Scenario.nasdaq fredTickers) as Hbad by (right; now left).
  assert (failed (@outcome Scenario.host Scenario.world Scenario.nasdaq)) as Hfail
    by now eexists.
  destruct (@loadTicker_isolated Scenario.host Scenario.world Scenario.page
              Scenario.nasdaq Hbad Hfail) as (doc' & E & _ & Same & Others).
  exists doc'. split; [exact E|]. split.
  - now apply Same.
  - destruct (Others Scenario.sp500 (filter_Boolean Scenario.kinds) 0%nat
                Scenario.sp500_span) as (l & Hl & Hr);
      [now left | reflexivity | reflexivity | reflexivity |].
    injection Hl as <-. exact Hr.
Defined.

(** ** The build script *)

Section Buckets.

Lemma hours_at_least (k p : Z) :
  Qle_bool (inject_Z k) (inject_Z p / 60) = (60 * k <=? p)%Z.
Proof.
  destruct (Z.leb_spec (60 * k) p) as [L|L].
  - apply Qle_bool_iff. unfold Qle, Qdiv, Qmult, Qinv, inject_Z. simpl. lia.
  - apply not_true_iff_false. rewrite Qle_bool_iff.
    unfold Qle, Qdiv, Qmult, Qinv, inject_Z. simpl. lia.
Qed.

Lemma hours_positive (p : Z) :
  negb (Qle_bool (inject_Z p / 60) 0) = (0 <? p)%Z.
Proof.
  destruct (Z.ltb_spec 0 p) as [L|L].
  - apply negb_true_iff, not_true_iff_false. rewrite Qle_bool_iff.
    unfold Qle, Qdiv, Qmult, Qinv, inject_Z. simpl. lia.
  - apply negb_false_iff, Qle_bool_iff.
    unfold Qle, Qdiv, Qmult, Qinv, inject_Z. simpl. lia.
Qed.

(** The hour thresholds of the callback are the minute bounds. *)
Lemma count_game_bucket (b : Steam.Buckets) (g : Steam.Game) :
  Steam.count_game b g =
    match bucket_of_minutes (Steam.playtime g) with
    | Some k => bump k b
    | None => b
    end.
Proof.
  unfold Steam.count_game, bucket_of_minutes.
  change 100%Q with (inject_Z 100). change 50%Q with (inject_Z 50).
  change 10%Q with (inject_Z 10). change 1%Q with (inject_Z 1).
  rewrite !hours_at_least, hours_positive.
  change (60 * 100)%Z with 6000%Z. change (60 * 50)%Z with 3000%Z.
  change (60 * 10)%Z with 600%Z. change (60 * 1)%Z with 60%Z.
  destruct b as [c1 c2 c3 c4 c5].
  destruct (6000 <=? _)%Z; [reflexivity|].
  destruct (3000 <=? _)%Z; [reflexivity|].
  destruct (600 <=? _)%Z; [reflexivity|].
  destruct (60 <=? _)%Z; [reflexivity|].
  now destruct (0 <? _)%Z.
Qed.

Lemma bump_total (k : Bucket) (b : Steam.Buckets) :
  Steam.buckets_total (bump k b) = (Steam.buckets_total b + 1)%Z.
Proof.
  destruct b as [c1 c2 c3 c4 c5], k; unfold Steam.buckets_total; simpl; lia.
Qed.

Lemma bucket_iff_played (g : Steam.Game) :
  (exists k, bucket_of_minutes (Steam.playtime g) = Some k)
  <-> Steam.played g = true.
Proof.
  unfold bucket_of_minutes, Steam.played.
  destruct (Z.leb_spec 6000 (Steam.playtime g));
    [split; [intros _; apply Z.ltb_lt; lia | now eexists]|].
  destruct (Z.leb_spec 3000 (Steam.playtime g));
    [split; [intros _; apply Z.ltb_lt; lia | now eexists]|].
  destruct (Z.leb_spec 600 (Steam.playtime g));
    [split; [intros _; apply Z.ltb_lt; lia | now eexists]|].
  destruct (Z.leb_spec 60 (Steam.playtime g));
    [split; [intros _; apply Z.ltb_lt; lia | now eexists]|].
  destruct (0 <? Steam.playtime g)%Z; split; try easy.
  - now eexists.
  - intros [k K]. discriminate K.
Qed.

Lemma count_game_total (b : Steam.Buckets) (g : Steam.Game) :
  Steam.buckets_total (Steam.count_game b g) =
  (Steam.buckets_total b + if Steam.played g then 1 else 0)%Z.
Proof.
  rewrite count_game_bucket.
  pose proof (bucket_iff_played g) as P.
  destruct (bucket_of_minutes (Steam.playtime g)) as [k|].
  - rewrite bump_total. replace (Steam.played g) with true; [reflexivity|].
    symmetry. apply P. now exists k.
  - destruct (Steam.played g); [|lia].
    destruct (proj2 P eq_refl) as [k K]. discriminate K.
Qed.

Lemma fold_count_total (gs : list Steam.Game) : forall b,
  Steam.buckets_total (fold_left Steam.count_game gs b) =
  (Steam.buckets_total b + Steam.playedCount gs)%Z.
Proof.
  unfold Steam.playedCount.
  induction gs as [|g gs IH]; intros b; cbn [fold_left filter].
  - simpl. lia.
  - rewrite IH, count_game_total. destruct (Steam.played g); cbn [length]; lia.
Qed.

(** C10. For every list of owned games, the five counters partition the
    played games: the callback counts a game with a positive playtime in
    exactly one bucket, the one of its minutes, it counts a game with no
    playtime in none, and the five counters add up to [playedCount]. *)
Theorem playtimeBuckets_partition (gs : list Steam.Game) :
  Steam.buckets_total (Steam.playtimeBuckets gs) = Steam.playedCount gs
  /\ (forall b g,
        (0 < Steam.playtime g)%Z ->
        exists k, Steam.count_game b g = bump k b
                  /\ forall k', Steam.count_game b g = bump k' b -> k' = k)
  /\ (forall b g, (Steam.playtime g <= 0)%Z -> Steam.count_game b g = b).
Proof.
  split; [|split].
  - unfold Steam.playtimeBuckets. rewrite fold_count_total. reflexivity.
  - intros b g Hp. rewrite count_game_bucket.
    destruct (proj2 (bucket_iff_played g)) as [k K];
      [now apply Z.ltb_lt|].
    rewrite K. exists k. split; [reflexivity|].
    intros k' E. destruct b as [c1 c2 c3 c4 c5].
    destruct k, k'; try reflexivity; simpl in E; injection E; intros; lia.
  - intros b g Hp. rewrite count_game_bucket.
    pose proof (bucket_iff_played g) as P.
    destruct (bucket_of_minutes (Steam.playtime g)) as [k|]; [|reflexivity].
    assert (Steam.played g = true) as K by (apply P; now exists k).
    apply Z.ltb_lt in K. lia.
Qed.

End Buckets.

Section Script.

Context `{Steam.Host}.

Lemma getOwnedGames_run (w : Steam.World) (key id : jsstring) :
  Steam.getOwnedGames w key id =
  cbind (cbind (Steam.fetch w (owned_url key id)) (fun res =>
           if Steam.ok res then Steam.text res
           else Throw (Error (SteamFailed (lit "GetOwnedGames") (Steam.status res)))))
        Steam.JSON_games.
Proof.
  unfold Steam.getOwnedGames, Steam.steamGet.
  change (Steam.BASE ++ _) with (owned_url key id).
  destruct (Steam.fetch w (owned_url key id)) as [res|e]; [|reflexivity].
  cbn [cbind]. now destruct (Steam.ok res).
Qed.

Lemma getRecentlyPlayed_run (w : Steam.World) (key id : jsstring) :
  Steam.getRecentlyPlayed w key id =
  cbind (cbind (Steam.fetch w (recent_url key id)) (fun res =>
           if Steam.ok res then Steam.text res
           else Throw (Error (SteamFailed (lit "GetRecentlyPlayedGames")
                                          (Steam.status res)))))
        Steam.JSON_games.
Proof.
  unfold Steam.getRecentlyPlayed, Steam.steamGet.
  change (Steam.BASE ++ _) with (recent_url key id).
  destruct (Steam.fetch w (recent_url key id)) as [res|e]; [|reflexivity].
  cbn [cbind]. now destruct (Steam.ok res).
Qed.

Lemma getPlayerSummary_run (w : Steam.World) (key id : jsstring) :
  Steam.getPlayerSummary w key id =
  cbind (Steam.fetch w (summary_url key id)) (fun res =>
    if Steam.ok res then
      cbind (cbind (Steam.text res) Steam.JSON_players) (fun players =>
        Ok (match players with p :: _ => p | [] => Steam.no_player end))
    else Throw (Error (PlayerSummariesFailed (Steam.status res)))).
Proof.
  unfold Steam.getPlayerSummary.
  change (Steam.BASE ++ _) with (summary_url key id).
  destruct (Steam.fetch w (summary_url key id)) as [res|e]; [|reflexivity].
  cbn [cbind]. now destruct (Steam.ok res).
Qed.

Lemma http_error_raises {A} (w : Steam.World) (u : jsstring)
    (k : Steam.Response -> completion A) (err : Steam.Response -> exn) :
  http_error w u ->
  failed (cbind (Steam.fetch w u) (fun res =>
            if Steam.ok res then k res else Throw (err res))).
Proof.
  intros [[e E]|(res & E & K)]; rewrite E; cbn [cbind].
  - now eexists.
  - rewrite K. now eexists.
Qed.

Lemma failed_cbind {A B} (c : completion A) (k : A -> completion B) :
  failed c -> failed (cbind c k).
Proof. intros [e ->]. now eexists. Qed.

(** A rejected request makes the main function reject. *)
Lemma main_raises (w : Steam.World) (key id : jsstring) :
  failed (Steam.getOwnedGames w key id)
  \/ failed (Steam.getRecentlyPlayed w key id)
  \/ failed (Steam.getPlayerSummary w key id) ->
  failed (Steam.main w key id).
Proof.
  unfold Steam.main. intros F. apply failed_cbind.
  destruct (Steam.getOwnedGames w key id) as [o|e1];
    [|now eexists].
  destruct (Steam.getRecentlyPlayed w key id) as [r|e2];
    [|now eexists].
  destruct (Steam.getPlayerSummary w key id) as [p|e3];
    [|now eexists].
  destruct F as [[e F]|[[e F]|[e F]]]; discriminate F.
Qed.

Lemma script_with_credentials (w : Steam.World) (key id : jsstring) :
  Steam.process_env w Steam.STEAM_API_KEY = Some key ->
  Steam.process_env w Steam.STEAM_ID = Some id ->
  key <> [] -> id <> [] ->
  Steam.script w =
    match Steam.main w key id with
    | Ok file => {| Steam.exit_code := 0; Steam.written := Some file |}
    | Throw _ => fatal
    end.
Proof.
  intros K I Hk Hi. unfold Steam.script. rewrite K, I.
  destruct key as [|c key]; [congruence|].
  destruct id as [|d id]; [congruence|]. reflexivity.
Qed.

(** C9. The script ends with status 1, having written nothing, whenever one
    of [STEAM_API_KEY] and [STEAM_ID] is missing (or empty) in the
    environment, [.env] included; and likewise, with both present, whenever
    one of its three requests is rejected or answered with a status outside
    200..299, or the write fails.  Otherwise it ends with status 0 having
    written, at [steam-data.json] beside the script, the document
    serialized with an indentation of 2, whose top-level fields are
    [fetchedAt] (the ISO string of the current time), [profile], [stats],
    [recentlyPlayed] and [topByPlaytime]. *)
Theorem script_outcomes (w : Steam.World) :
  (Steam.truthy_env (Steam.process_env w Steam.STEAM_API_KEY) = false
   \/ Steam.truthy_env (Steam.process_env w Steam.STEAM_ID) = false ->
   Steam.script w = fatal)
  /\ forall key id,
       Steam.process_env w Steam.STEAM_API_KEY = Some key ->
       Steam.process_env w Steam.STEAM_ID = Some id ->
       key <> [] -> id <> [] ->
       (http_error w (owned_url key id)
        \/ http_error w (recent_url key id)
        \/ http_error w (summary_url key id) ->
        Steam.script w = fatal)
       /\ forall owned recent profile,
            Steam.getOwnedGames w key id = Ok owned ->
            Steam.getRecentlyPlayed w key id = Ok recent ->
            Steam.getPlayerSummary w key id = Ok profile ->
            let doc := Steam.output w owned recent profile in
            let path := Steam.path_join (Steam.dirname w) Steam.OUT_FILE in
            let data := Steam.JSON_stringify doc 2 in
            top_level_fields doc =
              [ lit "fetchedAt"; lit "profile"; lit "stats";
                lit "recentlyPlayed"; lit "topByPlaytime" ]
            /\ (exists rest,
                  doc = Steam.JObject
                          ((lit "fetchedAt",
                            Steam.JString (Steam.toISOString (Steam.clock w)))
                           :: rest))
            /\ (failed (Steam.writeFileSync w path data) ->
                Steam.script w = fatal)
            /\ (Steam.writeFileSync w path data = Ok tt ->
                Steam.script w =
                  {| Steam.exit_code := 0; Steam.written := Some (path, data) |}).
Proof.
  split.
  - intros M. unfold Steam.script.
    destruct M as [M|M]; rewrite M; [reflexivity|].
    now rewrite orb_true_r.
  - intros key id K I Hk Hi. rewrite (script_with_credentials w key id K I Hk Hi).
    split.
    + intros E.
      destruct (main_raises w key id) as [e M]; [|now rewrite M].
      rewrite getOwnedGames_run, getRecentlyPlayed_run, getPlayerSummary_run.
      destruct E as [E|[E|E]].
      * left. apply failed_cbind. now apply http_error_raises.
      * right. left. apply failed_cbind. now apply http_error_raises.
      * right. right. now apply http_error_raises.
    + intros owned recent profile O R P doc path data.
      split; [reflexivity|]. split; [now eexists|].
      unfold Steam.main. rewrite O, R, P. cbn [Steam.Promise_all3 cbind].
      fold doc. fold path. fold data.
      split.
      * intros [e W]. now rewrite W.
      * intros W. now rewrite W.
Qed.

End Script.

Lemma script_outcomes_witness :
  @Steam.script Scenario.steam_host Scenario.steam_world_no_id = fatal
  /\ @Steam.script Scenario.steam_host Scenario.steam_world =
       {| Steam.exit_code := 0;
          Steam.written := Some (lit "/site/steam-data.json", lit "{}") |}.
Proof.
  split.
  - destruct (@script_outcomes Scenario.steam_host Scenario.steam_world_no_id)
      as [Missing _].
    apply Missing. right. reflexivity.
  - destruct (@script_outcomes Scenario.steam_host Scenario.steam_world)
      as [_ Present].
    assert (lit "KEY" <> []) as Hk by discriminate.
    assert (lit "7656" <> []) as Hi by discriminate.
    destruct (Present (lit "KEY") (lit "7656") eq_refl eq_refl Hk Hi) as [_ Run].
    destruct (Run {| Steam.game_count := Some 3%Z;
                     Steam.games := Some Scenario.library |}
                  {| Steam.game_count := Some 3%Z;
                     Steam.games := Some Scenario.library |}
                  Steam.no_player eq_refl eq_refl eq_refl)
      as (_ & _ & _ & Written).
    exact (Written eq_refl).
Defined.

Lemma playtimeBuckets_partition_witness :
  Steam.playtimeBuckets Scenario.library =
    {| Steam.b_100_plus := 1; Steam.b_50_100 := 0; Steam.b_10_50 := 0;
       Steam.b_1_10 := 0; Steam.b_under_1 := 1 |}
  /\ Steam.buckets_total (Steam.playtimeBuckets Scenario.library) = 2%Z
  /\ Steam.playedCount Scenario.library = 2%Z.
Proof.
  destruct (playtimeBuckets_partition Scenario.library) as (Total & _ & _).
  split; [reflexivity|]. split; [rewrite Total|]; reflexivity.
Defined.

(** ** The drawer controller *)

Section DrawerFacts.

Lemma str_eqb_refl (a : jsstring) : str_eqb a a = true.
Proof. now apply str_eqb_eq. Qed.

Lemma has_class_add (token : jsstring) (cl : list jsstring) (c : jsstring) :
  has_class c (classList_add token cl) = has_class c cl || str_eqb c token.
Proof.
  unfold classList_add, has_class.
  destruct (existsb (str_eqb token) cl) eqn:E.
  - destruct (str_eqb c token) eqn:K; [|now rewrite orb_false_r].
    apply str_eqb_eq in K. subst c. now rewrite E.
  - rewrite existsb_app. cbn [existsb]. now rewrite orb_false_r.
Qed.

Lemma has_class_remove (tokens cl : list jsstring) (c : jsstring) :
  has_class c (classList_remove tokens cl) =
  has_class c cl && negb (has_class c tokens).
Proof.
  unfold classList_remove, has_class.
  induction cl as [|x cl IH]; [reflexivity|]. cbn [filter existsb].
  destruct (existsb (str_eqb x) tokens) eqn:E; cbn [negb existsb].
  - rewrite IH. destruct (str_eqb c x) eqn:K; [|reflexivity].
    apply str_eqb_eq in K. subst x. rewrite E. cbn [negb].
    now rewrite !andb_false_r.
  - rewrite IH. destruct (str_eqb c x) eqn:K; [|reflexivity].
    apply str_eqb_eq in K. subst x. now rewrite E.
Qed.

Lemma classList_remove_twice (tokens cl : list jsstring) :
  classList_remove tokens (classList_remove tokens cl) = classList_remove tokens cl.
Proof.
  unfold classList_remove. induction cl as [|x cl IH]; [reflexivity|].
  cbn [filter]. destruct (existsb (str_eqb x) tokens) eqn:E; cbn [negb].
  - exact IH.
  - cbn [filter]. rewrite E. cbn [negb]. now rewrite IH.
Qed.

Lemma is_open_setOpen (b : bool) (p : Drawer.Page) :
  Drawer.drawer p <> None -> Drawer.is_open (Drawer.setOpen b p) = b.
Proof.
  unfold Drawer.is_open, Drawer.setOpen. cbn [Drawer.drawer].
  destruct (Drawer.drawer p) as [cl|]; [intros _|congruence]. cbn [option_map].
  destruct b.
  - fold (has_class Drawer.OPEN (classList_add Drawer.OPEN cl)).
    rewrite has_class_add, str_eqb_refl. apply orb_true_r.
  - fold (has_class Drawer.OPEN (classList_remove [Drawer.OPEN] cl)).
    rewrite has_class_remove. unfold has_class at 2. cbn [existsb].
    rewrite str_eqb_refl. cbn. apply andb_false_r.
Qed.

Lemma installed_drawer (p : Drawer.Page) :
  Drawer.installed p = true -> Drawer.drawer p <> None.
Proof. unfold Drawer.installed. now destruct (Drawer.drawer p). Qed.

Lemma installed_setOpen (b : bool) (p : Drawer.Page) :
  Drawer.installed (Drawer.setOpen b p) = Drawer.installed p.
Proof.
  unfold Drawer.installed, Drawer.setOpen. cbn [Drawer.drawer Drawer.toggles].
  destruct (Drawer.drawer p); [|reflexivity]. cbn [option_map].
  now destruct (Drawer.toggles p).
Qed.

Lemma in_sync_setOpen (b : bool) (p : Drawer.Page) :
  Drawer.drawer p <> None -> in_sync (Drawer.setOpen b p).
Proof.
  intros D. unfold in_sync. rewrite (is_open_setOpen b p D).
  cbn [Drawer.setOpen Drawer.toggles]. apply Forall_forall.
  intros a Ha. apply in_map_iff in Ha. now destruct Ha as (x & <- & _).
Qed.

Lemma setOpen_false_twice (p : Drawer.Page) :
  Drawer.setOpen false (Drawer.setOpen false p) = Drawer.setOpen false p.
Proof.
  unfold Drawer.setOpen. cbn [Drawer.drawer Drawer.toggles Drawer.focused].
  f_equal.
  - destruct (Drawer.drawer p); [|reflexivity]. cbn [option_map].
    now rewrite classList_remove_twice.
  - now rewrite map_map.
Qed.

(** Closing a closed drawer whose toggles say so changes nothing. *)
Lemma setOpen_false_closed (p : Drawer.Page) :
  in_sync p -> Drawer.is_open p = false -> Drawer.setOpen false p = p.
Proof.
  intros S C. unfold in_sync in S. rewrite C in S.
  destruct p as [d ts f]. unfold Drawer.setOpen.
  cbn [Drawer.drawer Drawer.toggles Drawer.focused] in *. f_equal.
  - destruct d as [cl|]; [|reflexivity]. cbn [option_map]. f_equal.
    unfold Drawer.is_open in C. cbn [Drawer.drawer] in C.
    unfold classList_remove. induction cl as [|x cl IH]; [reflexivity|].
    cbn [existsb] in C. apply orb_false_iff in C. destruct C as [C1 C2].
    cbn [filter existsb]. replace (str_eqb x Drawer.OPEN) with false.
    + cbn [orb negb]. f_equal. exact (IH C2).
    + symmetry. apply str_eqb_neq. intros ->. now rewrite str_eqb_refl in C1.
  - induction S as [|a ts Ha _ IH]; [reflexivity|]. cbn [map]. now rewrite Ha, IH.
Qed.

Lemma installed_at_node (n : Drawer.node) (p : Drawer.Page) :
  Drawer.installed (Drawer.at_node n p) = Drawer.installed p.
Proof.
  unfold Drawer.at_node.
  destruct (Drawer.is_toggle n), (Drawer.is_link n);
    now rewrite ?installed_setOpen.
Qed.

Lemma at_node_settles (n : Drawer.node) (p : Drawer.Page) :
  Drawer.installed p = true ->
  Drawer.at_node n p = p \/ in_sync (Drawer.at_node n p).
Proof.
  intros I. unfold Drawer.at_node.
  destruct (Drawer.is_link n).
  - right. apply in_sync_setOpen, installed_drawer.
    destruct (Drawer.is_toggle n); [now rewrite installed_setOpen | exact I].
  - destruct (Drawer.is_toggle n); [right | now left].
    now apply in_sync_setOpen, installed_drawer.
Qed.

Lemma bubble_settles (path : list Drawer.node) (rest : list Drawer.node) :
  forall p, Drawer.installed p = true ->
  Drawer.bubble path rest p = p \/ in_sync (Drawer.bubble path rest p).
Proof.
  induction rest as [|n rest IH]; intros p I; cbn [Drawer.bubble].
  - unfold Drawer.document_click. destruct (_ && _); [right | now left].
    now apply in_sync_setOpen, installed_drawer.
  - destruct (Drawer.is_toggle n); [now apply at_node_settles|].
    assert (Drawer.installed (Drawer.at_node n p) = true) as I'
      by now rewrite installed_at_node.
    destruct (at_node_settles n p I) as [E|S].
    + rewrite E. now apply IH.
    + right. destruct (IH _ I') as [E'|S']; [now rewrite E' | exact S'].
Qed.

Lemma keydown_settles (key : jsstring) (p : Drawer.Page) :
  Drawer.installed p = true ->
  Drawer.keydown key p = p \/ in_sync (Drawer.keydown key p).
Proof.
  intros I. unfold Drawer.keydown. destruct (str_eqb key Drawer.ESCAPE); [right | now left].
  exact (in_sync_setOpen false p (installed_drawer p I)).
Qed.

Lemma handle_settles (ev : Drawer.event) (p : Drawer.Page) :
  Drawer.handle ev p = p \/ in_sync (Drawer.handle ev p).
Proof.
  unfold Drawer.handle. destruct (Drawer.installed p) eqn:I; [|now left].
  destruct ev; [now apply bubble_settles | now apply keydown_settles].
Qed.

(** X1. Once the toggles announce the state of the drawer they always do:
    after any sequence of clicks and key presses, every toggle's
    [aria-expanded] is ["true"] when the drawer has the class [open] and
    ["false"] when it has not; and an event that changes the page at all
    leaves it in that state, whatever the attributes were before. *)
Theorem drawer_aria_in_sync (evs : list Drawer.event) (p : Drawer.Page) :
  in_sync p ->
  in_sync (Drawer.run evs p)
  /\ forall ev q, Drawer.handle ev q <> q -> in_sync (Drawer.handle ev q).
Proof.
  intros S. split.
  - revert p S. unfold Drawer.run.
    induction evs as [|ev evs IH]; intros p S; [exact S|]. cbn [fold_left].
    apply IH. destruct (handle_settles ev p) as [E|K]; [now rewrite E | exact K].
  - intros ev q Hne. now destruct (handle_settles ev q).
Qed.

Lemma drawer_aria_in_sync_witness :
  in_sync (Drawer.run [Drawer.Click [Drawer.Other; Drawer.Toggle];
                       Drawer.KeyDown (lit "Tab");
                       Drawer.Click [Drawer.Link; Drawer.TheDrawer]]
                      Scenario.synced_page).
Proof.
  assert (in_sync Scenario.synced_page) as S by (repeat constructor).
  exact (proj1 (drawer_aria_in_sync _ Scenario.synced_page S)).
Defined.

Lemma at_node_plain (n : Drawer.node) (p : Drawer.Page) :
  Drawer.is_toggle n = false ->
  Drawer.at_node n p = if Drawer.is_link n then Drawer.setOpen false p else p.
Proof. intros T. unfold Drawer.at_node. now rewrite T. Qed.

Lemma bubble_to_toggle (path pre rest : list Drawer.node) (t : Drawer.node)
    (p : Drawer.Page) :
  plain_path pre -> Drawer.is_toggle t = true ->
  Drawer.bubble path (pre ++ t :: rest) p = Drawer.at_node t p.
Proof.
  intros P T. induction P as [|n pre [Tn Ln] _ IH].
  - cbn [app Drawer.bubble]. now rewrite T.
  - cbn [app Drawer.bubble]. now rewrite Tn, (at_node_plain n p Tn), Ln.
Qed.

Lemma is_open_at_toggle (t : Drawer.node) (p : Drawer.Page) :
  Drawer.installed p = true -> Drawer.is_toggle t = true ->
  Drawer.is_open (Drawer.at_node t p) =
    (if Drawer.is_link t then false else negb (Drawer.is_open p))
  /\ in_sync (Drawer.at_node t p)
  /\ Drawer.installed (Drawer.at_node t p) = true.
Proof.
  intros I T. pose proof (installed_drawer p I) as D.
  split; [|split; [|now rewrite installed_at_node]].
  - unfold Drawer.at_node. rewrite T. destruct (Drawer.is_link t).
    + apply is_open_setOpen, installed_drawer. now rewrite installed_setOpen.
    + now apply is_open_setOpen.
  - unfold Drawer.at_node. rewrite T. destruct (Drawer.is_link t).
    + apply in_sync_setOpen, installed_drawer. now rewrite installed_setOpen.
    + now apply in_sync_setOpen.
Qed.

(** X2. A click on a toggle, or on anything inside one that is neither a
    toggle nor a link of the drawer, runs the listeners of that toggle and
    goes no further.  When the toggle is not itself a link of the drawer
    the drawer flips: it is open afterwards exactly when it was closed
    before, and a second such click brings the first state back.  When the
    toggle is also a link of the drawer, its second listener closes what
    the first one flipped: the drawer is closed afterwards.  Either way the
    toggles announce the new state. *)
Theorem drawer_toggle_flips (pre rest pre' rest' : list Drawer.node)
    (t t' : Drawer.node) (p : Drawer.Page) :
  Drawer.installed p = true -> plain_path pre -> plain_path pre' ->
  Drawer.is_toggle t = true -> Drawer.is_toggle t' = true ->
  let p1 := Drawer.handle (Drawer.Click (pre ++ t :: rest)) p in
  let p2 := Drawer.handle (Drawer.Click (pre' ++ t' :: rest')) p1 in
  Drawer.is_open p1 = (if Drawer.is_link t then false else negb (Drawer.is_open p))
  /\ in_sync p1
  /\ Drawer.is_open p2 = (if Drawer.is_link t' then false else negb (Drawer.is_open p1))
  /\ in_sync p2
  /\ (Drawer.is_link t = false -> Drawer.is_link t' = false ->
      Drawer.is_open p2 = Drawer.is_open p).
Proof.
  intros I P P' T T' p1 p2.
  assert (p1 = Drawer.at_node t p) as E1.
  { unfold p1, Drawer.handle. rewrite I. now apply bubble_to_toggle. }
  destruct (is_open_at_toggle t p I T) as (O1 & S1 & I1). rewrite <- E1 in O1, S1, I1.
  assert (p2 = Drawer.at_node t' p1) as E2.
  { unfold p2, Drawer.handle. rewrite I1. now apply bubble_to_toggle. }
  destruct (is_open_at_toggle t' p1 I1 T') as (O2 & S2 & _). rewrite <- E2 in O2, S2.
  repeat split; try assumption.
  intros L L'. rewrite O2, L', O1, L. apply negb_involutive.
Qed.

Lemma drawer_toggle_flips_witness :
  Drawer.is_open
    (Drawer.handle (Drawer.Click [Drawer.Other; Drawer.Toggle]) Scenario.drawer_page)
  = true
  /\ Drawer.is_open
       (Drawer.handle (Drawer.Click [Scenario.toggle_link; Drawer.TheDrawer])
          (Drawer.handle (Drawer.Click [Drawer.Other; Drawer.Toggle])
             Scenario.drawer_page))
     = false
  /\ Drawer.handle (Drawer.Click [Drawer.Toggle])
       (Drawer.handle (Drawer.Click [Drawer.Other; Drawer.Toggle]) Scenario.drawer_page)
     = Scenario.synced_page.
Proof.
  assert (plain_path [Drawer.Other]) as P by (repeat constructor).
  assert (plain_path []) as P' by constructor.
  destruct (drawer_toggle_flips [Drawer.Other] [] [] [Drawer.TheDrawer]
              Drawer.Toggle Scenario.toggle_link Scenario.drawer_page
              eq_refl P P' eq_refl eq_refl) as (O1 & _ & O2 & _ & _).
  split; [exact O1 | split; [exact O2 | reflexivity]].
Defined.

(** X3. The Escape key closes the drawer from any state, makes every
    toggle say so and gives the focus to the first toggle; every other key
    leaves the page as it is. *)
Theorem drawer_escape_closes (key : jsstring) (p : Drawer.Page) :
  Drawer.installed p = true ->
  let p' := Drawer.handle (Drawer.KeyDown key) p in
  (key = Drawer.ESCAPE ->
     Drawer.is_open p' = false /\ in_sync p' /\ Drawer.focused p' = Some 0%nat)
  /\ (key <> Drawer.ESCAPE -> p' = p).
Proof.
  intros I p'. unfold p', Drawer.handle, Drawer.keydown. rewrite I. split.
  - intros ->. rewrite str_eqb_refl.
    pose proof (installed_drawer p I) as D. split; [|split].
    + exact (is_open_setOpen false p D).
    + exact (in_sync_setOpen false p D).
    + cbn [Drawer.focused Drawer.setOpen Drawer.toggles].
      unfold Drawer.installed in I.
      destruct (Drawer.drawer p); [|discriminate I].
      now destruct (Drawer.toggles p).
  - intros Hne. apply str_eqb_neq in Hne. now rewrite Hne.
Qed.

Lemma drawer_escape_closes_witness :
  Drawer.focused (Drawer.handle (Drawer.KeyDown Drawer.ESCAPE) Scenario.drawer_page)
  = Some 0%nat
  /\ Drawer.handle (Drawer.KeyDown (lit "Enter")) Scenario.drawer_page
     = Scenario.drawer_page.
Proof.
  destruct (drawer_escape_closes Drawer.ESCAPE Scenario.drawer_page eq_refl)
    as [Esc _].
  destruct (drawer_escape_closes (lit "Enter") Scenario.drawer_page eq_refl)
    as [_ Other].
  split; [now apply Esc | apply Other; discriminate].
Defined.

Lemma bubble_no_toggle (path rest : list Drawer.node) : forall p,
  existsb Drawer.is_toggle rest = false ->
  Drawer.bubble path rest p =
  Drawer.document_click path
    (if existsb Drawer.is_link rest then Drawer.setOpen false p else p).
Proof.
  induction rest as [|n rest IH]; intros p T; [reflexivity|].
  cbn [existsb] in T. apply orb_false_iff in T. destruct T as [Tn T].
  cbn [Drawer.bubble existsb]. rewrite Tn, (at_node_plain n p Tn), (IH _ T).
  destruct (Drawer.is_link n); cbn [orb]; [|reflexivity].
  destruct (existsb Drawer.is_link rest); [|reflexivity].
  now rewrite setOpen_false_twice.
Qed.

(** X4. Where a click lands decides what it does.  With no toggle on its
    way: outside the drawer it closes the drawer; on a link of the drawer
    it closes the drawer; elsewhere inside the drawer it changes
    nothing. *)
Theorem drawer_click_routing (path : list Drawer.node) (p : Drawer.Page) :
  Drawer.installed p = true ->
  existsb Drawer.is_toggle path = false ->
  Drawer.handle (Drawer.Click path) p =
    if existsb Drawer.is_drawer path
    then if existsb Drawer.is_link path
         then Drawer.setOpen false p else p
    else Drawer.setOpen false p.
Proof.
  intros I T. unfold Drawer.handle. rewrite I, (bubble_no_toggle _ _ _ T).
  unfold Drawer.document_click. rewrite T.
  destruct (existsb Drawer.is_drawer path); cbn [negb andb].
  - reflexivity.
  - destruct (existsb Drawer.is_link path);
      [apply setOpen_false_twice | reflexivity].
Qed.

Lemma drawer_click_routing_witness :
  Drawer.handle (Drawer.Click [Drawer.Other; Drawer.TheDrawer]) Scenario.drawer_page
  = Scenario.drawer_page
  /\ Drawer.handle (Drawer.Click [Drawer.Other]) Scenario.drawer_page
     = Scenario.synced_page.
Proof.
  split.
  - exact (drawer_click_routing [Drawer.Other; Drawer.TheDrawer]
             Scenario.drawer_page eq_refl eq_refl).
  - exact (drawer_click_routing [Drawer.Other] Scenario.drawer_page eq_refl eq_refl).
Defined.

Lemma same_frame_refl (p : Drawer.Page) : same_frame p p.
Proof. split; [reflexivity|]. now destruct (Drawer.drawer p). Qed.

Lemma same_frame_trans (p q r : Drawer.Page) :
  same_frame p q -> same_frame q r -> same_frame p r.
Proof.
  intros [L1 C1] [L2 C2]. split; [congruence|].
  destruct (Drawer.drawer p), (Drawer.drawer q), (Drawer.drawer r); try easy.
  intros c Hc. now rewrite C2, C1.
Qed.

Lemma setOpen_frame (b : bool) (p : Drawer.Page) :
  same_frame p (Drawer.setOpen b p).
Proof.
  split; cbn [Drawer.setOpen Drawer.toggles Drawer.drawer]; [apply length_map|].
  destruct (Drawer.drawer p) as [cl|]; [|exact I]. cbn [option_map].
  intros c Hc. apply str_eqb_neq in Hc.
  change (has_class c (if b then classList_add Drawer.OPEN cl
                       else classList_remove [Drawer.OPEN] cl) = has_class c cl).
  destruct b.
  - rewrite has_class_add, Hc. apply orb_false_r.
  - rewrite has_class_remove. unfold has_class at 2. cbn [existsb].
    rewrite Hc. cbn. apply andb_true_r.
Qed.

Lemma at_node_frame (n : Drawer.node) (p : Drawer.Page) :
  same_frame p (Drawer.at_node n p).
Proof.
  unfold Drawer.at_node.
  destruct (Drawer.is_link n), (Drawer.is_toggle n);
    try apply same_frame_refl; try apply setOpen_frame.
  apply same_frame_trans with (Drawer.setOpen (negb (Drawer.is_open p)) p);
    apply setOpen_frame.
Qed.

Lemma bubble_frame (path rest : list Drawer.node) : forall p,
  same_frame p (Drawer.bubble path rest p).
Proof.
  induction rest as [|n rest IH]; intros p; cbn [Drawer.bubble].
  - unfold Drawer.document_click.
    destruct (_ && _); [apply setOpen_frame | apply same_frame_refl].
  - destruct (Drawer.is_toggle n); [apply at_node_frame|].
    apply same_frame_trans with (Drawer.at_node n p);
      [apply at_node_frame | apply IH].
Qed.

Lemma handle_frame (ev : Drawer.event) (p : Drawer.Page) :
  same_frame p (Drawer.handle ev p).
Proof.
  unfold Drawer.handle. destruct (Drawer.installed p); [|apply same_frame_refl].
  destruct ev as [path|key]; [apply bubble_frame|].
  unfold Drawer.keydown.
  destruct (str_eqb key Drawer.ESCAPE); [|apply same_frame_refl].
  exact (setOpen_frame false p).
Qed.

(** X5. What the controller never does.  Over any sequence of events it
    neither adds nor removes a toggle or the drawer, and on the class list
    of the drawer it changes no token but [open]; on a page without the
    drawer or without any toggle it changes nothing at all. *)
Theorem drawer_frame (evs : list Drawer.event) (p : Drawer.Page) :
  same_frame p (Drawer.run evs p)
  /\ (Drawer.installed p = false -> Drawer.run evs p = p).
Proof.
  split.
  - revert p. unfold Drawer.run.
    induction evs as [|ev evs IH]; intros p; [apply same_frame_refl|].
    cbn [fold_left]. apply same_frame_trans with (Drawer.handle ev p);
      [apply handle_frame | apply IH].
  - intros I. unfold Drawer.run.
    induction evs as [|ev evs IH]; [reflexivity|]. cbn [fold_left].
    unfold Drawer.handle at 2. now rewrite I.
Qed.

End DrawerFacts.

(** ** More on the fetch chain and the parser *)

Section ChainFacts.

Context `{Host}.

(** X6. Whatever the network does, [fetchText] issues at most three
    requests, each with [cache: 'no-store']; for a target that
    [encodeURIComponent] rejects (a lone surrogate) it issues none and
    fails with that error. *)
Theorem fetchText_requests (u : jsstring) (w : World) :
  Forall (fun rq => no_store rq = true) (snd (fetchText u w))
  /\ (length (snd (fetchText u w)) <= 3)%nat
  /\ (forall e, encodeURIComponent u = Throw e -> fetchText u w = (Throw e, [])).
Proof.
  rewrite fetchText_run.
  destruct (encodeURIComponent u) as [q|e] eqn:E.
  - rewrite (fetchViaCodetabs_run _ _ _ E), (fetchViaAllOriginsGet_run _ _ _ E),
      (fetchViaAllOriginsRaw_run _ _ _ E).
    split; [|split; [|discriminate]].
    + destruct (cbind (fetch w (codetabs_request q)) _); [now repeat constructor|].
      destruct (cbind (fetch w (allorigins_get_request q)) _); now repeat constructor.
    + destruct (cbind (fetch w (codetabs_request q)) _); [cbn; lia|].
      destruct (cbind (fetch w (allorigins_get_request q)) _); cbn; lia.
  - destruct (unencodable_run u e w E) as (-> & -> & ->).
    split; [constructor|]. split; [cbn; lia|].
    intros e' E'. now injection E' as <-.
Qed.

End ChainFacts.

Section ParserFacts.

Lemma split_on_pieces (c : code_unit) (s : jsstring) :
  Forall (fun piece => ~ In c piece) (split_on c s).
Proof.
  induction s as [|x s IH]; cbn [split_on]; [now repeat constructor|].
  destruct (N.eqb_spec x c) as [->|Hne]; [now constructor|].
  destruct (split_on c s) as [|h t]; [repeat constructor; intros [E|[]]; congruence|].
  inversion IH as [|? ? Hh Ht]. subst. constructor; [|exact Ht].
  intros [E|K]; [congruence | now apply Hh].
Qed.

(** The first of two pieces or more is what precedes the first separator. *)
Lemma split_on_first (c : code_unit) (s : jsstring) : forall d x more,
  split_on c s = d :: x :: more -> exists t, s = d ++ c :: t.
Proof.
  induction s as [|y s IH]; intros d x more; cbn [split_on]; [discriminate|].
  destruct (N.eqb_spec y c) as [->|Hne].
  - intros E. injection E as <- _. now exists s.
  - destruct (split_on c s) as [|h t] eqn:S; [discriminate|].
    intros E. injection E as <- ->.
    destruct (IH h x more eq_refl) as [t' ->]. now exists t'.
Qed.

Lemma parseLine_point (l : jsstring) (p : Point) :
  parseLine l = Some p ->
  isFinite (value p) = true
  /\ ~ In COMMA_UNIT (date p)
  /\ exists t, l = date p ++ COMMA_UNIT :: t.
Proof.
  unfold parseLine. pose proof (split_on_pieces COMMA_UNIT l) as F.
  pose proof (split_on_first COMMA_UNIT l) as D.
  destruct (split_on COMMA_UNIT l) as [|d [|x more]]; try discriminate.
  cbn [length Nat.ltb Nat.leb nth].
  destruct (isFinite (Number x)) eqn:K; [|discriminate].
  intros E. injection E as <-. cbn [value date]. split; [exact K|]. split.
  - now inversion F.
  - now apply (D d x more).
Qed.

Lemma in_filter_Boolean {A B} (f : A -> option B) (l : list A) (b : B) :
  In b (filter_Boolean (map f l)) -> exists a, In a l /\ f a = Some b.
Proof.
  induction l as [|a l IH]; cbn [map filter_Boolean]; [easy|].
  destruct (f a) as [b'|] eqn:E.
  - intros [->|K]; [exists a; split; [now left | exact E]|].
    destruct (IH K) as (a' & Ha & Ea). exists a'. split; [now right | exact Ea].
  - intros K. destruct (IH K) as (a' & Ha & Ea). exists a'. split; [now right | exact Ea].
Qed.

Lemma in_slice {A} (l : list A) (start : Z) (stop : option Z) (x : A) :
  In x (slice l start stop) -> In x l.
Proof.
  unfold slice. intros K.
  set (from := Z.to_nat (clamp_index (Z.of_nat (length l)) start)) in *.
  rewrite <- (firstn_skipn from l). apply in_or_app. right.
  set (n := Z.to_nat _) in K.
  rewrite <- (firstn_skipn n (skipn from l)). apply in_or_app. now left.
Qed.

Lemma points_come_from_lines (csv : jsstring) (p : Point) :
  In p (parseFredCsv csv) ->
  isFinite (value p) = true
  /\ ~ In COMMA_UNIT (date p)
  /\ exists line t,
       In line (split_lines csv) /\ line = date p ++ COMMA_UNIT :: t.
Proof.
  unfold parseFredCsv.
  destruct (length (filter truthy_str (split_lines csv)) <? 2)%nat; [easy|].
  intros K. apply in_filter_Boolean in K. destruct K as (line & Hl & E).
  apply in_slice, filter_In in Hl. destruct Hl as [Hl _].
  destruct (parseLine_point _ _ E) as (F & D & t & L).
  split; [exact F|]. split; [exact D|]. now exists line, t.
Qed.

(** X7. Every point the parser returns has a finite value and a date
    without comma, and comes from a line of the text that starts with this
    date followed by a comma. *)
Theorem parseFredCsv_points_wellformed (csv : jsstring) (p : Point) :
  In p (parseFredCsv csv) ->
  isFinite (value p) = true
  /\ ~ In COMMA_UNIT (date p)
  /\ exists line t,
       In line (split_lines csv) /\ line = date p ++ COMMA_UNIT :: t.
Proof. apply points_come_from_lines. Qed.

Lemma parseFredCsv_points_wellformed_witness :
  isFinite (Number (lit "4688.68")) = true
  /\ ~ In COMMA_UNIT (lit "2024-01-04").
Proof.
  destruct (parseFredCsv_points_wellformed Scenario.csv
              {| date := lit "2024-01-04"; value := Number (lit "4688.68") |})
    as (F & D & _); [right; now left|].
  split; [exact F | exact D].
Defined.

(** X8. The points depend on the non-empty lines after the first one and
    on nothing else: texts with different (non-empty) headers, different
    line terminators and different blank lines give the same points. *)
Theorem parseFredCsv_layout_independent
    (h h' : jsstring) (rest rest' : list (eol * jsstring)) :
  h <> [] -> h' <> [] -> lines_ok h rest -> lines_ok h' rest' ->
  filter truthy_str (map snd rest) = filter truthy_str (map snd rest') ->
  parseFredCsv (join_lines h rest) = parseFredCsv (join_lines h' rest').
Proof.
  intros Hh Hh' Hok Hok' E.
  rewrite (parseFredCsv_join _ _ Hh Hok), (parseFredCsv_join _ _ Hh' Hok').
  rewrite <- (empty_lines_dropped (map snd rest)),
          <- (empty_lines_dropped (map snd rest')).
  now rewrite E.
Qed.

Lemma parseFredCsv_layout_independent_witness :
  parseFredCsv Scenario.csv
  = parseFredCsv (join_lines (lit "observation_date,SP500") Scenario.compact_rows).
Proof.
  apply (parseFredCsv_layout_independent
           Scenario.header (lit "observation_date,SP500")
           Scenario.rows Scenario.compact_rows).
  - discriminate.
  - discriminate.
  - cbn [lines_ok Scenario.rows Scenario.header].
    repeat split; try not_in_units; try discriminate; try no_trailing_cr.
  - cbn [lines_ok Scenario.compact_rows].
    repeat split; try not_in_units; try discriminate; try no_trailing_cr.
  - reflexivity.
Defined.

Context `{Host}.

(** X9. A text without a line feed, a header alone or a short error
    message, gives no point, and [fetchFred] then fails with [NoData]
    after the requests of the fetch. *)
Theorem header_only_is_no_data (csv : jsstring) :
  ~ In LF csv ->
  parseFredCsv csv = []
  /\ forall id q w t,
       encodeURIComponent id = Ok q ->
       fetchText (FRED_CSV ++ q) w = (Ok csv, t) ->
       fetchFred id w = (Throw (Error NoData), t).
Proof.
  intros Hn.
  assert (parseFredCsv csv = []) as P.
  { unfold parseFredCsv. rewrite (split_lines_single _ Hn).
    now destruct csv. }
  split; [exact P|].
  intros id q w t E F. now rewrite (fetchFred_run _ _ _ E), F, P.
Qed.

(** X10. A series that [fetchFred] returns is never empty and holds only
    finite values; so the pass always finds a latest point, the last of
    the series, and always writes to the spans of the ticker. *)
Theorem fetchFred_series_usable (id : jsstring) (w : World) (pts : list Point) :
  fst (fetchFred id w) = Ok pts ->
  pts <> []
  /\ Forall (fun p => isFinite (value p) = true) pts
  /\ exists before l,
       pts = before ++ [l]
       /\ latest (latestPair pts) = Some l
       /\ forall doc cfg,
            renderResult doc (Fulfilled (cfg, pts)) =
              let pct := percentChange (value l)
                           (option_map value (previous (latestPair pts))) in
              updateSpans (attr cfg)
                (fmtTicker (label cfg) (value l) (decimals cfg) (suffix cfg) pct)
                (direction pct) doc.
Proof.
  intros E.
  assert (exists csv, pts = parseFredCsv csv /\ pts <> []) as (csv & P & Hne).
  { destruct (encodeURIComponent id) as [q|e] eqn:Q.
    - rewrite (fetchFred_run _ _ _ Q) in E.
      destruct (fetchText (FRED_CSV ++ q) w) as [[csv|e] t]; [|discriminate E].
      cbn [fst] in E. destruct (parseFredCsv csv) eqn:K; [discriminate E|].
      injection E as <-. exists csv. now rewrite K.
    - unfold fetchFred, bind, lift in E. rewrite Q in E. discriminate E. }
  split; [exact Hne|]. split.
  - apply Forall_forall. intros p Hp. rewrite P in Hp.
    now apply points_come_from_lines in Hp.
  - destruct pts as [|l before] using rev_ind; [congruence|].
    exists before, l. split; [reflexivity|].
    assert (latest (latestPair (before ++ [l])) = Some l) as L.
    { unfold latestPair. rewrite length_app. cbn [length].
      replace (length before + 1 =? 0)%nat with false
        by (symmetry; apply Nat.eqb_neq; lia).
      cbn [latest]. rewrite nth_error_app2 by lia.
      now replace (length before + 1 - 1 - length before)%nat with 0%nat by lia. }
    split; [exact L|]. intros doc cfg. cbn [renderResult]. now rewrite L.
Qed.

End ParserFacts.

Lemma header_only_is_no_data_witness :
  parseFredCsv (lit "DATE,SP500") = [].
Proof.
  assert (~ In LF (lit "DATE,SP500")) as Hn by not_in_units.
  exact (proj1 (@header_only_is_no_data Scenario.host (lit "DATE,SP500") Hn)).
Defined.

Lemma fetchFred_series_usable_witness :
  latest (latestPair (filter_Boolean Scenario.kinds))
  = Some {| date := lit "2024-01-04"; value := Number (lit "4688.68") |}.
Proof.
  destruct (@fetchFred_series_usable Scenario.host (lit "SP500") Scenario.world
              (filter_Boolean Scenario.kinds) eq_refl)
    as (_ & _ & before & l & E & L & _).
  rewrite L. f_equal.
  change (filter_Boolean Scenario.kinds) with
    ([{| date := lit "2024-01-02"; value := Number (lit "4742.83") |}]
     ++ [{| date := lit "2024-01-04"; value := Number (lit "4688.68") |}]) in E.
  apply app_inj_tail in E. now destruct E as [_ <-].
Defined.

(** ** More on the render sink and the pass *)

Section DomFacts.

Lemma classList_add_fresh (token : jsstring) (cl : list jsstring) :
  has_class token cl = false -> classList_add token cl = cl ++ [token].
Proof. unfold classList_add, has_class. now intros ->. Qed.

Lemma cleared_has_no_tick (cl : list jsstring) :
  has_class TICK_UP (classList_remove [TICK_UP; TICK_DOWN] cl) = false
  /\ has_class TICK_DOWN (classList_remove [TICK_UP; TICK_DOWN] cl) = false.
Proof.
  rewrite !has_class_remove. split.
  - replace (has_class TICK_UP [TICK_UP; TICK_DOWN]) with true by reflexivity.
    apply andb_false_r.
  - replace (has_class TICK_DOWN [TICK_UP; TICK_DOWN]) with true by reflexivity.
    apply andb_false_r.
Qed.

Lemma classList_remove_app (tokens a b : list jsstring) :
  classList_remove tokens (a ++ b) =
  classList_remove tokens a ++ classList_remove tokens b.
Proof. apply filter_app. Qed.

Lemma updateSpan_twice (t : jsstring) (d : option Direction) (sp : Span) :
  updateSpan t d (updateSpan t d sp) = updateSpan t d sp.
Proof.
  unfold updateSpan. cbn [classList data_ticker]. f_equal.
  destruct (cleared_has_no_tick (classList sp)) as [U D].
  set (base := classList_remove [TICK_UP; TICK_DOWN] (classList sp)) in *.
  assert (classList_remove [TICK_UP; TICK_DOWN] base = base) as R
    by apply classList_remove_twice.
  destruct d as [[|]|].
  - rewrite (classList_add_fresh _ _ U), classList_remove_app, R.
    cbn. rewrite app_nil_r. now apply classList_add_fresh.
  - rewrite (classList_add_fresh _ _ D), classList_remove_app, R.
    cbn. rewrite app_nil_r. now apply classList_add_fresh.
  - now rewrite R.
Qed.

(** X11. [updateSpans] is idempotent: calling it again with the same
    arguments changes nothing more. *)
Theorem updateSpans_idempotent (a t : jsstring) (d : option Direction) (doc : document) :
  updateSpans a t d (updateSpans a t d doc) = updateSpans a t d doc.
Proof.
  unfold updateSpans. rewrite map_map. apply map_ext. intros sp.
  destruct (str_eqb (data_ticker sp) a) eqn:E.
  - cbn [updateSpan data_ticker]. rewrite E. apply updateSpan_twice.
  - now rewrite E.
Qed.

(** X12. After [updateSpans], a span bound to the key shows the text, has
    the class [tick--up] exactly when the direction is [up] and the class
    [tick--down] exactly when it is [down] (so never both, and neither for
    no direction), and keeps or lacks every other class as before. *)
Theorem updateSpans_classes (a t : jsstring) (d : option Direction)
    (doc : document) (i : nat) (sp : Span) :
  nth_error doc i = Some sp -> data_ticker sp = a ->
  exists sp',
    nth_error (updateSpans a t d doc) i = Some sp'
    /\ data_ticker sp' = a
    /\ textContent sp' = t
    /\ has_class TICK_UP (classList sp') = is_up d
    /\ has_class TICK_DOWN (classList sp') = is_down d
    /\ forall c, c <> TICK_UP -> c <> TICK_DOWN ->
                 has_class c (classList sp') = has_class c (classList sp).
Proof.
  intros Hi Ha. exists (updateSpan t d sp).
  split.
  { unfold updateSpans. rewrite nth_error_map, Hi. cbn [option_map].
    replace (str_eqb (data_ticker sp) a) with true; [reflexivity|].
    symmetry. now apply str_eqb_eq. }
  split; [exact Ha|]. split; [reflexivity|].
  unfold updateSpan. cbn [classList].
  destruct (cleared_has_no_tick (classList sp)) as [U D].
  set (base := classList_remove [TICK_UP; TICK_DOWN] (classList sp)) in *.
  assert (forall c, c <> TICK_UP -> c <> TICK_DOWN ->
                    has_class c base = has_class c (classList sp)) as K.
  { intros c H1 H2. unfold base. rewrite has_class_remove.
    unfold has_class at 2. cbn [existsb].
    apply str_eqb_neq in H1, H2. rewrite H1, H2. apply andb_true_r. }
  destruct d as [[|]|]; cbn [is_up is_down].
  - repeat split.
    + rewrite has_class_add, str_eqb_refl. apply orb_true_r.
    + rewrite has_class_add, D. reflexivity.
    + intros c H1 H2. rewrite has_class_add, (K c H1 H2).
      apply str_eqb_neq in H1. rewrite H1. apply orb_false_r.
  - repeat split.
    + rewrite has_class_add, U. reflexivity.
    + rewrite has_class_add, str_eqb_refl. apply orb_true_r.
    + intros c H1 H2. rewrite has_class_add, (K c H1 H2).
      apply str_eqb_neq in H2. rewrite H2. apply orb_false_r.
  - repeat split; assumption.
Qed.

Lemma updateSpans_classes_witness :
  exists sp',
    nth_error (updateSpans (lit "SP500") (lit "S&P 500 4,689") (Some up) Scenario.page)
              0 = Some sp'
    /\ has_class TICK_UP (classList sp') = true
    /\ has_class TICK_DOWN (classList sp') = false
    /\ has_class (lit "tick") (classList sp') = true.
Proof.
  destruct (updateSpans_classes (lit "SP500") (lit "S&P 500 4,689") (Some up)
              Scenario.page 0 Scenario.sp500_span eq_refl eq_refl)
    as (sp' & E & _ & _ & U & D & K).
  exists sp'. split; [exact E|]. split; [exact U|]. split; [exact D|].
  rewrite K; [reflexivity | discriminate | discriminate].
Defined.

(** X13. [updateSpans] writes to the spans of its key and to nothing else:
    the spans stay in place with their keys, and a span bound to another
    key is exactly as before. *)
Theorem updateSpans_frame (a t : jsstring) (d : option Direction) (doc : document) :
  map data_ticker (updateSpans a t d doc) = map data_ticker doc
  /\ forall i sp, nth_error doc i = Some sp -> data_ticker sp <> a ->
                  nth_error (updateSpans a t d doc) i = Some sp.
Proof.
  split.
  - unfold updateSpans. rewrite map_map. apply map_ext. intros sp.
    now destruct (str_eqb (data_ticker sp) a).
  - intros i sp Hi Hne. now apply updateSpans_other.
Qed.

Context `{Host}.

Lemma fold_render_span_key (rs : list (Settled (TickerSpec * list Point))) :
  forall sp, data_ticker (fold_left (fun sp r => render_span r sp) rs sp)
             = data_ticker sp.
Proof.
  induction rs as [|r rs IH]; intros sp; [reflexivity|]. cbn [fold_left].
  now rewrite IH, render_span_data_ticker.
Qed.

Lemma loadBtc_keys (doc : document) (w : World) :
  exists doc', fst (loadBtc doc w) = Ok doc'
    /\ map data_ticker doc' = map data_ticker doc.
Proof.
  unfold loadBtc, try_catch, bind, await_fetch, lift, ret.
  destruct (fetch w _) as [resp|e]; [|now exists doc].
  destruct (ok resp); [|now exists doc].
  destruct (cbind (text resp) JSON_coingecko) as [d|e]; [|now exists doc].
  eexists. split; [reflexivity|]. apply updateSpans_frame.
Qed.

Lemma loadDjia_keys (doc : document) (w : World) :
  exists doc', fst (loadDjia doc w) = Ok doc'
    /\ map data_ticker doc' = map data_ticker doc.
Proof.
  unfold loadDjia, try_catch, bind, lift, ret.
  destruct (fetchText YAHOO_DJI w) as [[raw|e] t]; [|now exists doc].
  destruct (JSON_chart raw) as [data|e]; [|now exists doc].
  eexists. split; [reflexivity|]. apply updateSpans_frame.
Qed.

(** X14. [loadTicker] never rejects, whatever the network and the parsers
    do.  It leaves every span in place with its key, and a span bound to
    none of the eight series keys, nor to BTC, nor to DJIA, is exactly as
    before. *)
Theorem loadTicker_total (doc : document) (w : World) :
  exists doc',
    fst (loadTicker doc w) = Ok doc'
    /\ map data_ticker doc' = map data_ticker doc
    /\ forall i sp,
         nth_error doc i = Some sp ->
         ~ In (data_ticker sp) (BTC :: DJIA :: map attr fredTickers) ->
         nth_error doc' i = Some sp.
Proof.
  pose proof (loadFred_run fredTickers doc w) as E1.
  unfold loadTicker, loadTickerWith, bind.
  destruct (loadFred fredTickers doc w) as [r1 t1]. cbn [fst] in E1. subst r1.
  set (doc1 := map _ doc).
  destruct (loadBtc_run doc1 w) as (doc2 & E2 & _ & K2).
  destruct (loadBtc_keys doc1 w) as (doc2' & E2' & M2).
  rewrite E2 in E2'. injection E2' as <-.
  destruct (loadBtc doc1 w) as [r2 t2]. cbn [fst] in E2. subst r2.
  destruct (loadDjia_run doc2 w) as (doc3 & E3 & _ & K3).
  destruct (loadDjia_keys doc2 w) as (doc3' & E3' & M3).
  rewrite E3 in E3'. injection E3' as <-.
  destruct (loadDjia doc2 w) as [r3 t3]. cbn [fst] in E3. subst r3.
  exists doc3. split; [reflexivity|]. split.
  - rewrite M3, M2. unfold doc1. rewrite map_map. apply map_ext.
    intros sp. apply fold_render_span_key.
  - intros i sp Hi Hn.
    apply K3; [intros K; apply Hn; right; left; now rewrite K|].
    apply K2; [intros K; apply Hn; left; now rewrite K|].
    unfold doc1. rewrite nth_error_map, Hi. cbn [option_map]. f_equal.
    apply untouched_by_others. intros K. apply Hn. now right; right.
Qed.

(** X15. On the DJIA path a previous close that is absent or zero, under
    both of its names, gives no percent and no direction: the spans of
    DJIA get the label and the price alone, and lose both direction
    classes.  A first name that is set and not zero is the one used. *)
Theorem loadDjia_previous_close (doc : document) (w : World)
    (raw : jsstring) (t : list Request) (data : ChartDoc) :
  fetchText YAHOO_DJI w = (Ok raw, t) -> JSON_chart raw = Ok data ->
  (truthy_num (chartPreviousClose data) = false ->
   truthy_num (previousClose data) = false ->
   fst (loadDjia doc w) =
     Ok (updateSpans DJIA
           (DJIA ++ SPACE
                 ++ toLocaleString (regularMarketPrice data) (Some 0%N) (Some 0%N))
           None doc))
  /\ (truthy_num (chartPreviousClose data) = true ->
      let prev := chartPreviousClose data in
      let pct := Some (fmul (fdiv (fsub (regularMarketPrice data) prev) prev) hundred) in
      fst (loadDjia doc w) =
        Ok (updateSpans DJIA
              (fmtTicker DJIA (regularMarketPrice data) 0 None pct)
              (direction pct) doc)).
Proof.
  intros F J. unfold loadDjia, try_catch, bind, lift, ret. rewrite F, J. split.
  - intros T1 T2. now rewrite T1, T2.
  - intros T1. now rewrite T1, T1.
Qed.

End DomFacts.

Lemma loadDjia_previous_close_witness :
  fst (@loadDjia Scenario.djia_host [Scenario.djia_span] Scenario.open_world)
  = Ok [ {| data_ticker := lit "DJIA"; textContent := lit "DJIA #";
            classList := [lit "tick"] |} ].
Proof.
  destruct (@loadDjia_previous_close Scenario.djia_host [Scenario.djia_span]
              Scenario.open_world (lit "{}")
              [codetabs_request
                 (lit "https%3A%2F%2Fquery1.finance.yahoo.com%2Fv8%2Ffinance%2Fchart%2F%255EDJI%3Frange%3D2d%26interval%3D1d")]
              {| regularMarketPrice := of_Z 39000;
                 chartPreviousClose := NaN;
                 previousClose := pos_zero |}
              eq_refl eq_refl) as [Absent _].
  exact (Absent eq_refl eq_refl).
Defined.

(** ** More on the build script *)

Section ScriptFacts.

Lemma setenv_other (l : list (jsstring * jsstring)) : forall e k,
  ~ In k (map fst l) -> fold_left Steam.setenv l e k = e k.
Proof.
  induction l as [|a l IH]; intros e k Hn; [reflexivity|]. cbn [fold_left].
  rewrite IH by (intros K; apply Hn; now right).
  unfold Steam.setenv. replace (str_eqb k (fst a)) with false; [reflexivity|].
  symmetry. apply str_eqb_neq. intros ->. apply Hn. now left.
Qed.

(** X16. The [.env] file wins over the inherited environment and, inside
    it, the last assignment of a name wins; a name the file does not
    assign keeps its inherited value. *)
Theorem dotenv_overrides (w : Steam.World) (assignments : list (jsstring * jsstring)) :
  Steam.dotenv w = Some assignments ->
  (forall k, ~ In k (map fst assignments) -> Steam.process_env w k = Steam.env w k)
  /\ (forall before k v after,
        assignments = before ++ (k, v) :: after -> ~ In k (map fst after) ->
        Steam.process_env w k = Some v).
Proof.
  intros D. unfold Steam.process_env. rewrite D. split.
  - intros k Hn. now apply setenv_other.
  - intros before k v after -> Hn. rewrite fold_left_app. cbn [fold_left].
    rewrite (setenv_other _ _ _ Hn). unfold Steam.setenv. cbn [fst snd].
    now rewrite str_eqb_refl.
Qed.

Lemma dotenv_overrides_witness :
  Steam.process_env Scenario.steam_world_no_id Steam.STEAM_API_KEY = Some (lit "KEY")
  /\ Steam.process_env Scenario.steam_world_no_id Steam.STEAM_ID = None.
Proof.
  destruct (dotenv_overrides Scenario.steam_world_no_id
              [(Steam.STEAM_API_KEY, lit "KEY")] eq_refl) as [Keep Last].
  split.
  - apply (Last [] Steam.STEAM_API_KEY (lit "KEY") []); [reflexivity | easy].
  - rewrite Keep; [reflexivity | not_in_units].
Defined.

Lemma insert_permutation (g : Steam.Game) (l : list Steam.Game) :
  Permutation (g :: l) (Steam.insert_by_playtime g l).
Proof.
  induction l as [|h t IH]; cbn [Steam.insert_by_playtime]; [reflexivity|].
  destruct (Steam.playtime g <? Steam.playtime h)%Z; [|reflexivity].
  rewrite perm_swap. now apply perm_skip.
Qed.

Lemma sort_permutation (gs : list Steam.Game) :
  Permutation gs (Steam.sort_by_playtime gs).
Proof.
  induction gs as [|g gs IH]; [reflexivity|]. cbn [Steam.sort_by_playtime fold_right].
  rewrite <- insert_permutation. now apply perm_skip.
Qed.

Lemma insert_sorted (g : Steam.Game) (l : list Steam.Game) :
  StronglySorted longer_played l ->
  StronglySorted longer_played (Steam.insert_by_playtime g l).
Proof.
  induction 1 as [|h t St IH Fa]; cbn [Steam.insert_by_playtime].
  - repeat constructor.
  - destruct (Z.ltb_spec (Steam.playtime g) (Steam.playtime h)) as [L|L].
    + constructor; [exact IH|].
      apply (Permutation_Forall (insert_permutation g t)).
      constructor; [unfold longer_played; lia | exact Fa].
    + constructor; [now constructor|].
      constructor; [exact L|].
      apply Forall_forall. intros x Hx. unfold longer_played.
      pose proof (proj1 (Forall_forall _ _) Fa x Hx) as K. unfold longer_played in K. lia.
Qed.

Lemma sort_sorted (gs : list Steam.Game) :
  StronglySorted longer_played (Steam.sort_by_playtime gs).
Proof.
  induction gs as [|g gs IH]; [constructor|]. now apply insert_sorted.
Qed.

Lemma sorted_app (a b : list Steam.Game) :
  StronglySorted longer_played (a ++ b) ->
  StronglySorted longer_played a
  /\ forall x y, In x a -> In y b -> longer_played x y.
Proof.
  induction a as [|h a IH]; cbn [app]; intros S.
  - split; [constructor | easy].
  - inversion S as [|? ? St Fa]. subst. destruct (IH St) as [Sa K].
    apply Forall_app in Fa. destruct Fa as [Fa Fb]. split.
    + now constructor.
    + intros x y [<-|Hx] Hy; [|now apply K].
      exact (proj1 (Forall_forall _ _) Fb y Hy).
Qed.

Lemma slice_all {A} (l : list A) : slice l 0 None = l.
Proof.
  unfold slice, clamp_index. replace (0 <? 0)%Z with false by reflexivity.
  rewrite Z.min_l by lia. rewrite Z.max_l by lia. cbn [Z.to_nat skipn].
  rewrite Z.sub_0_r, Nat2Z.id. apply firstn_all.
Qed.

Lemma slice_first {A} (l : list A) (n : nat) :
  slice l 0 (Some (Z.of_nat n)) = firstn n l.
Proof.
  unfold slice, clamp_index. replace (0 <? 0)%Z with false by reflexivity.
  destruct (Z.ltb_spec (Z.of_nat n) 0); [lia|].
  rewrite (Z.min_l 0) by lia. cbn [Z.to_nat skipn]. rewrite Z.sub_0_r.
  rewrite Z.max_l by lia.
  destruct (Nat.le_gt_cases n (length l)) as [L|L].
  - rewrite Z.min_l by lia. now rewrite Nat2Z.id.
  - rewrite Z.min_r by lia. rewrite Nat2Z.id, firstn_all.
    symmetry. apply firstn_all2. lia.
Qed.

(** X17. [topByPlaytime] lists the games played longest: at most ten
    entries, as many as there are games when fewer, in order of decreasing
    playtime, each built from a game of the library, and no game left out
    has been played longer than a listed one. *)
Theorem topByPlaytime_longest (gs : list Steam.Game) :
  exists top others,
    Permutation gs (top ++ others)
    /\ Steam.topByPlaytime gs = map Steam.top_entry top
    /\ length top = Nat.min 10 (length gs)
    /\ StronglySorted longer_played top
    /\ forall a b, In a top -> In b others -> longer_played a b.
Proof.
  set (sorted := Steam.sort_by_playtime gs).
  exists (firstn 10 sorted), (skipn 10 sorted).
  pose proof (sort_sorted gs) as S. fold sorted in S.
  rewrite <- (firstn_skipn 10 sorted) in S. apply sorted_app in S.
  destruct S as [St Dom].
  split; [rewrite firstn_skipn; apply sort_permutation|].
  split.
  { unfold Steam.topByPlaytime. rewrite slice_all.
    change 10%Z with (Z.of_nat 10). now rewrite slice_first. }
  split.
  { rewrite length_firstn. unfold sorted.
    now rewrite <- (Permutation_length (sort_permutation gs)). }
  split; [exact St | exact Dom].
Qed.

Lemma Math_round_hours (m : Z) :
  Steam.Math_round (inject_Z m / 60) = ((m + 30) / 60)%Z.
Proof.
  unfold Steam.Math_round, Qfloor, Qplus, Qdiv, Qmult, Qinv, inject_Z.
  cbn [Qnum Qden]. simpl.
  replace (m * 1 * 2 + 60)%Z with (2 * (m + 30))%Z by lia.
  change 120%Z with (2 * 60)%Z. apply Z.div_mul_cancel_l; lia.
Qed.

Context `{Steam.Host}.

(** X18. The [totalHours] of the written statistics is the total playtime
    of the listed games in hours, rounded to the nearest hour, a half hour
    going up. *)
Theorem totalHours_nearest (w : Steam.World) (owned recent : Steam.GamesResponse)
    (profile : Steam.Player) :
  let total := fold_left (fun sum g => (sum + Steam.playtime g)%Z) (games_of owned) 0%Z in
  exists hours,
    json_path2 (lit "stats") (lit "totalHours") (Steam.output w owned recent profile)
    = Some (Steam.JNumber (inject_Z hours))
    /\ (60 * hours - 30 <= total < 60 * hours + 30)%Z.
Proof.
  intros total. exists ((total + 30) / 60)%Z. split.
  - unfold Steam.output. fold (games_of owned). fold total.
    rewrite Math_round_hours. reflexivity.
  - pose proof (Z.div_mod (total + 30) 60) as D.
    pose proof (Z.mod_pos_bound (total + 30) 60) as B. lia.
Qed.

Lemma played_or_not (gs : list Steam.Game) :
  (Steam.playedCount gs + unplayed gs = Z.of_nat (length gs))%Z.
Proof.
  unfold Steam.playedCount, unplayed.
  induction gs as [|g gs IH]; [reflexivity|]. cbn [filter].
  destruct (Steam.played g); cbn [negb length]; lia.
Qed.

(** X19. [neverPlayed] counts the listed games without playtime when the
    answer carries no [game_count], a [game_count] of zero, or the number
    of games it lists.  In general it is [game_count] less the number of
    played games. *)
Theorem neverPlayed_counts (w : Steam.World) (owned recent : Steam.GamesResponse)
    (profile : Steam.Player) :
  Steam.game_count owned = None
  \/ Steam.game_count owned = Some 0%Z
  \/ Steam.game_count owned = Some (Z.of_nat (length (games_of owned))) ->
  json_path2 (lit "stats") (lit "neverPlayed") (Steam.output w owned recent profile)
  = Some (Steam.JNumber (inject_Z (unplayed (games_of owned))))
  /\ json_path2 (lit "stats") (lit "totalGames") (Steam.output w owned recent profile)
     = Some (Steam.JNumber (inject_Z (Z.of_nat (length (games_of owned))))).
Proof.
  intros G. pose proof (played_or_not (games_of owned)) as P.
  unfold Steam.output. fold (games_of owned).
  set (total := match Steam.game_count owned with
                | Some n => if (n =? 0)%Z then Z.of_nat (length (games_of owned)) else n
                | None => Z.of_nat (length (games_of owned))
                end).
  assert (total = Z.of_nat (length (games_of owned))) as T.
  { unfold total. destruct G as [-> | [-> | ->]]; try reflexivity.
    now destruct (_ =? 0)%Z. }
  split.
  - transitivity (Some (Steam.JNumber
                          (inject_Z (total - Steam.playedCount (games_of owned)))));
      [reflexivity|].
    do 3 f_equal. lia.
  - transitivity (Some (Steam.JNumber (inject_Z total))); [reflexivity|].
    now rewrite T.
Qed.

(** X20. An answer of GetPlayerSummaries that lists no player does not
    stop the script: the profile of the written document then holds three
    empty strings. *)
Theorem no_player_is_not_fatal (w : Steam.World) (key id : jsstring)
    (res : Steam.Response) :
  Steam.fetch w (summary_url key id) = Ok res -> Steam.ok res = true ->
  cbind (Steam.text res) Steam.JSON_players = Ok [] ->
  Steam.getPlayerSummary w key id = Ok Steam.no_player
  /\ forall owned recent,
       json_field (lit "profile") (Steam.output w owned recent Steam.no_player)
       = Some (Steam.JObject [ (lit "name", Steam.JString []);
                               (lit "profileUrl", Steam.JString []);
                               (lit "avatar", Steam.JString []) ]).
Proof.
  intros F K J. split.
  - rewrite getPlayerSummary_run, F. cbn [cbind]. now rewrite K, J.
  - reflexivity.
Qed.

End ScriptFacts.

Lemma neverPlayed_counts_witness :
  json_path2 (lit "stats") (lit "neverPlayed")
    (@Steam.output Scenario.steam_host Scenario.steam_world
       {| Steam.game_count := Some 3%Z; Steam.games := Some Scenario.library |}
       {| Steam.game_count := None; Steam.games := None |} Steam.no_player)
  = Some (Steam.JNumber (inject_Z 1)).
Proof.
  assert (Some 3%Z = Some (Z.of_nat (length Scenario.library))) as G by reflexivity.
  exact (proj1 (@neverPlayed_counts Scenario.steam_host Scenario.steam_world
                  {| Steam.game_count := Some 3%Z; Steam.games := Some Scenario.library |}
                  {| Steam.game_count := None; Steam.games := None |}
                  Steam.no_player (or_intror (or_intror G)))).
Defined.

Lemma no_player_is_not_fatal_witness :
  @Steam.getPlayerSummary Scenario.steam_host Scenario.steam_world
    (lit "KEY") (lit "7656") = Ok Steam.no_player.
Proof.
  exact (proj1 (@no_player_is_not_fatal Scenario.steam_host Scenario.steam_world
                  (lit "KEY") (lit "7656")
                  {| Steam.status := 200; Steam.text := Ok (lit "{}") |}
                  eq_refl eq_refl eq_refl)).
Defined.

Section MoreScriptFacts.

Lemma Math_round_tenths (m : Z) :
  Steam.Math_round (inject_Z m / 60 * 10) = ((m + 3) / 6)%Z.
Proof.
  unfold Steam.Math_round, Qfloor, Qplus, Qdiv, Qmult, Qinv, inject_Z.
  cbn [Qnum Qden]. simpl.
  replace (m * 1 * 10 * 2 + 60)%Z with (20 * (m + 3))%Z by lia.
  change 120%Z with (20 * 6)%Z. apply Z.div_mul_cancel_l; lia.
Qed.

(** X21. The hours of an entry are a whole number of tenths of an hour,
    the nearest to the playtime in minutes, three minutes past a tenth
    going up. *)
Theorem hours_1dp_nearest (minutes : Z) :
  exists tenths,
    Steam.hours_1dp minutes = inject_Z tenths / 10
    /\ (6 * tenths - 3 <= minutes < 6 * tenths + 3)%Z
    /\ forall g, Steam.playtime g = minutes ->
         json_field (lit "hours") (Steam.top_entry g)
         = Some (Steam.JNumber (inject_Z tenths / 10))
         /\ json_field (lit "hours_total") (Steam.recent_entry g)
            = Some (Steam.JNumber (inject_Z tenths / 10)).
Proof.
  exists ((minutes + 3) / 6)%Z. split; [|split].
  - unfold Steam.hours_1dp. now rewrite Math_round_tenths.
  - pose proof (Z.div_mod (minutes + 3) 6) as D.
    pose proof (Z.mod_pos_bound (minutes + 3) 6) as B. lia.
  - intros g <-. unfold Steam.top_entry, Steam.recent_entry, Steam.hours_1dp.
    rewrite !Math_round_tenths. split; reflexivity.
Qed.

Context `{Steam.Host}.

(** X22. The exit status tells whether the file was written: the script
    either ends with status 1 having written nothing, or ends with status
    0 having written [steam-data.json] in its own directory; it never
    writes elsewhere. *)
Theorem script_exit_tells (w : Steam.World) :
  Steam.script w = fatal
  \/ exists data,
       Steam.script w =
         {| Steam.exit_code := 0;
            Steam.written :=
              Some (Steam.path_join (Steam.dirname w) Steam.OUT_FILE, data) |}.
Proof.
  unfold Steam.script.
  destruct (negb _ || negb _); [now left|].
  unfold Steam.main.
  destruct (Steam.Promise_all3 _ _ _) as [[[owned recent] profile]|e]; [|now left].
  cbn [cbind].
  destruct (Steam.writeFileSync w _ _); [right | now left].
  now eexists.
Qed.

End MoreScriptFacts.

Section Absorbed.

Context `{Host}.

(** X23. An exception of the payload decoder does not leave the chain: in
    wrapped mode a payload that the decoder rejects fails that path with
    the decoder's error, and [fetchText], the first path having failed,
    gives what the raw path gives. *)
Theorem decoder_error_absorbed (u q : jsstring) (w : World)
    (r : Response) (p : AllOriginsDoc) (e : exn) :
  encodeURIComponent u = Ok q ->
  fetch w (allorigins_get_request q) = Ok r -> ok r = true ->
  cbind (text r) JSON_allorigins = Ok p ->
  decodeDataPayload (contents_or_empty p) = Throw e ->
  fst (fetchViaAllOriginsGet u w) = Throw e
  /\ (failed (fst (fetchViaCodetabs u w)) ->
      fst (fetchText u w) = fst (fetchViaAllOriginsRaw u w)).
Proof.
  intros E F K J D.
  assert (fst (fetchViaAllOriginsGet u w) = Throw e) as G.
  { rewrite (fetchViaAllOriginsGet_run _ _ _ E). cbn [fst].
    rewrite F. cbn [cbind]. rewrite K, J. cbn [cbind]. now rewrite D. }
  split; [exact G|].
  intros [e1 C]. rewrite fetchText_run.
  destruct (fetchViaCodetabs u w) as [r1 t1]. cbn [fst] in C. subst r1.
  destruct (fetchViaAllOriginsGet u w) as [r2 t2]. cbn [fst] in G. now subst r2.
Qed.

End Absorbed.

Lemma decoder_error_absorbed_witness :
  fst (@fetchViaAllOriginsGet Scenario.malformed_host Scenario.target Scenario.world)
  = Throw URIError
  /\ fst (@fetchText Scenario.malformed_host Scenario.target Scenario.world)
     = Ok Scenario.csv.
Proof.
  destruct (@decoder_error_absorbed Scenario.malformed_host Scenario.target
              Scenario.encoded Scenario.world
              {| status := 200; text := Ok (lit "{}") |}
              {| contents := Some (lit "data:,%") |} URIError
              eq_refl eq_refl eq_refl eq_refl eq_refl) as [G T].
  split; [exact G|].
  rewrite T; [reflexivity | now eexists].
Defined.
